(** * ComplexPlot: the math engine (src/math/parser.ts, evaluator.ts, generators)

    A shallow embedding of the numeric core of ComplexPlot.

    - A JavaScript [number] is an IEEE-754 binary64 value: Rocq's primitive
      [float], with the same rounding, signed zeros, infinities and NaN.
    - Sample counts ([tSteps], [resolution]) and loop counters hold
      non-negative integers; they are [nat] here and are converted with
      [toNumber] wherever the source does arithmetic on them (the conversion
      is exact below 2^53, far more than an array can hold).
    - An expression text is a JavaScript string: the list of its UTF-16 code
      units, so that [trim] strips every white space and line terminator of
      ECMA-262, not the ASCII ones alone.
    - math.js ([parse], [compile], [evaluate]) is a library outside the
      repository: it is a parameter of the development.  A call that throws
      is [None].
    - [try]/[catch] and the calls made to math.js are kept explicit in a small
      monad [js]: a computation ends normally or by a thrown exception, and it
      extends a log of the evaluations it asked of math.js. *)

From Stdlib Require Import ZArith PrimFloat SpecFloat FloatOps FloatAxioms.
From Stdlib Require Uint63.
From stdpp Require Import base option list strings gmap.

Set Default Proof Using "Type".
Set Warnings "-inexact-float,-register-all".

(** ** Numbers *)

Definition toNumber (n : nat) : float := of_uint63 (Uint63.of_Z (Z.of_nat n)).

(** The global [isFinite] on a number. *)
Definition isFinite (x : float) : bool := is_finite x.

Definition NaN : float := nan.

Module Math.

Definition PI : float := 0x1.921fb54442d18p+1%float.

Definition E : float := 0x1.5bf0a8b145769p+1%float.

Definition sqrt (x : float) : float := PrimFloat.sqrt x.

(** [Math.max] of two numbers: NaN when either is NaN, and [+0] above [-0]. *)
Definition max (a b : float) : float :=
  if is_nan a || is_nan b then nan
  else if (a <? b)%float then b
  else if (b <? a)%float then a
  else if get_sign a then b else a.

Section Atan2.

(** ECMA-262, Math.atan2: the value at finite non-zero arguments is an
    implementation-approximated one; every other case is fixed by the
    table below. *)
Variable approx : float -> float -> float.

Definition isPosZero (x : float) : bool := PrimFloat.is_zero x && negb (get_sign x).
Definition isNegZero (x : float) : bool := PrimFloat.is_zero x && get_sign x.

Definition atan2 (y x : float) : float :=
  if is_nan y || is_nan x then nan
  else if (y =? infinity)%float then
    if (x =? infinity)%float then (PI / 4)%float
    else if (x =? neg_infinity)%float then (3 * PI / 4)%float
    else (PI / 2)%float
  else if (y =? neg_infinity)%float then
    if (x =? infinity)%float then (- PI / 4)%float
    else if (x =? neg_infinity)%float then (-3 * PI / 4)%float
    else (- PI / 2)%float
  else if isPosZero y then
    if (0 <? x)%float || isPosZero x then 0%float else PI
  else if isNegZero y then
    if (0 <? x)%float || isPosZero x then (-0)%float else (- PI)%float
  else if (0 <? y)%float then
    if (x =? infinity)%float then 0%float
    else if (x =? neg_infinity)%float then PI
    else if PrimFloat.is_zero x then (PI / 2)%float
    else approx y x
  else
    if (x =? infinity)%float then (-0)%float
    else if (x =? neg_infinity)%float then (- PI)%float
    else if PrimFloat.is_zero x then (- PI / 2)%float
    else approx y x.

End Atan2.

End Math.

(** ** Strings *)

(** An expression text is whatever the user typed: a JavaScript string, the
    sequence of its UTF-16 code units (numbers below 2^16). The names the
    program writes itself (variables, projections, ids, colours) are ASCII
    strings. *)
Definition text : Type := list N.

(** The text of an ASCII literal. *)
Definition ofAscii (s : string) : text :=
  Ascii.N_of_ascii <$> String.list_ascii_of_string s.

Coercion ofAscii : string >-> text.

(** [a === b] on two texts. *)
Fixpoint strictEquals (a b : text) : bool :=
  match a, b with
  | [], [] => true
  | x :: a', y :: b' => N.eqb x y && strictEquals a' b'
  | _, _ => false
  end.

(** ECMA-262 WhiteSpace and LineTerminator, the code units that
    [String.prototype.trim] strips: TAB, LF, VT, FF, CR, SP, NBSP, U+1680,
    U+2000 to U+200A, LS, PS, U+202F, U+205F, U+3000 and the byte order
    mark U+FEFF. *)
Definition isWhiteSpace (c : N) : bool :=
  (N.leb 0x9 c && N.leb c 0xD)
  || N.eqb c 0x20 || N.eqb c 0xA0 || N.eqb c 0x1680
  || (N.leb 0x2000 c && N.leb c 0x200A)
  || N.eqb c 0x2028 || N.eqb c 0x2029 || N.eqb c 0x202F
  || N.eqb c 0x205F || N.eqb c 0x3000 || N.eqb c 0xFEFF.

Fixpoint trimStart (s : text) : text :=
  match s with
  | [] => []
  | c :: r => if isWhiteSpace c then trimStart r else s
  end.

Fixpoint trimEnd (s : text) : text :=
  match s with
  | [] => []
  | c :: r =>
      match trimEnd r with
      | [] => if isWhiteSpace c then [] else [c]
      | r' => c :: r'
      end
  end.

Definition trim (s : text) : text := trimEnd (trimStart s).

(** Truthiness of a string: every string but the empty one. *)
Definition truthy (s : text) : bool := negb (strictEquals s "").

(** ** Values *)

Record ComplexPoint : Type := { re : float; im : float }.

(** What the engine inspects of a value handed back by math.js: a number, an
    object (a math.js [Complex] has numeric [re] and [im]; a matrix, a boolean
    wrapper or a unit has neither), or [null]/[undefined].  A field is [Some x]
    exactly when [typeof] of it is ['number']. *)
Inductive JSValue : Type :=
  | JSNumber (x : float)
  | JSObject (fre fim : option float)
  | JSNullish.

Definition complex (r i : float) : JSValue := JSObject (Some r) (Some i).

Definition toMathComplex (point : ComplexPoint) : JSValue :=
  complex (re point) (im point).

(** ** Completions and the evaluation log *)

Inductive outcome (A : Type) : Type :=
  | Normal (a : A)
  | Thrown.
Arguments Normal {A} a.
Arguments Thrown {A}.

(** [js L A]: a computation over a log [L] that ends with a value of [A] or
    with a thrown exception. *)
Definition js (L A : Type) : Type := L -> outcome A * L.

Definition js_ret {L A} (a : A) : js L A := fun l => (Normal a, l).

Definition js_bind {L A B} (f : A -> js L B) (m : js L A) : js L B :=
  fun l =>
    match m l with
    | (Normal a, l') => f a l'
    | (Thrown, l') => (Thrown, l')
    end.

Definition throw {L A} : js L A := fun l => (Thrown, l).

(** [try { m } catch { handler }] *)
Definition try_catch {L A} (m handler : js L A) : js L A :=
  fun l =>
    match m l with
    | (Normal a, l') => (Normal a, l')
    | (Thrown, l') => handler l'
    end.

#[global] Instance js_mret {L} : MRet (js L) := @js_ret L.
#[global] Instance js_mbind {L} : MBind (js L) := @js_bind L.

(** [for (let k = from; k < from + count; k++) s = body(k, s)] *)
Fixpoint forLoop {L St} (count from : nat) (body : nat -> St -> js L St)
  (s : St) : js L St :=
  match count with
  | O => mret s
  | S count' => s' ← body from s; forLoop count' (S from) body s'
  end.

(** [array.map(f)] with a callback that computes: the entries in order. *)
Fixpoint arrayMap {L A B} (f : A -> js L B) (l : list A) : js L (list B) :=
  match l with
  | [] => mret []
  | a :: l' => b ← f a; bs ← arrayMap f l'; mret (b :: bs)
  end.

(** ** Data model (src/types/index.ts) *)

Record ParsedExpression (MathNode EvalFunction : Type) : Type :=
  { node : MathNode; compiled : EvalFunction; variable : string }.
Arguments node {MathNode EvalFunction} _.
Arguments compiled {MathNode EvalFunction} _.
Arguments variable {MathNode EvalFunction} _.

Module ContourEntry.
Record t : Type :=
  { id : string;
    expression : text;
    transformFunction : text;
    color : string;
    enabled : bool;
    tMin : float;
    tMax : float;
    tSteps : nat;
    animationSpeed : float }.
End ContourEntry.

Module ContourData.
Record t : Type :=
  { id : string;
    points : list ComplexPoint;
    color : string;
    expression : text;
    tMin : float;
    tMax : float;
    animationSpeed : float }.
End ContourData.

Module ContourIntegralData.
Record t : Type :=
  { id : string;
    color : string;
    tValues : list float;
    contourPoints : list ComplexPoint;
    integrandVectors : list ComplexPoint;
    runningSum : list ComplexPoint;
    finalValue : ComplexPoint;
    expression : text;
    transformFunction : text }.
End ContourIntegralData.

Module DomainColoringConfig.
Record t : Type :=
  { expression : text;
    xMin : float; xMax : float; yMin : float; yMax : float;
    resolution : nat;
    colorBy : string }.
End DomainColoringConfig.

Module Surface3DConfig.
Record t : Type :=
  { expression : text;
    xMin : float; xMax : float; yMin : float; yMax : float;
    resolution : nat;
    heightBy : string;
    colorBy : string }.
End Surface3DConfig.

(** The object [{ z, colors }] returned by [generateDomainColoringData]. *)
Module DomainColoringData.
Record t : Type := { z : list (list float); colors : list (list float) }.
End DomainColoringData.

(** The object [{ x, y, z, colors }] returned by [generateSurface3DData]. *)
Module Surface3DData.
Record t : Type :=
  { x : list float; y : list float;
    z : list (list float); colors : list (list float) }.
End Surface3DData.

(** ** src/math/evaluator.ts: projections *)

Definition modulus (point : ComplexPoint) : float :=
  Math.sqrt (re point * re point + im point * im point)%float.

Section Projections.

Variable atan2_approx : float -> float -> float.

Definition argument (point : ComplexPoint) : float :=
  Math.atan2 atan2_approx (im point) (re point).

Definition getColorValue (point : ComplexPoint) (colorBy : string) : float :=
  if String.eqb colorBy "modulus" then modulus point
  else if String.eqb colorBy "argument" then argument point
  else if String.eqb colorBy "real" then re point
  else if String.eqb colorBy "imaginary" then im point
  else modulus point.

End Projections.

(** ** Complex arithmetic of the integral engine *)

Definition complexMultiply (a b : ComplexPoint) : ComplexPoint :=
  {| re := (re a * re b - im a * im b)%float;
     im := (re a * im b + im a * re b)%float |}.

Definition complexAdd (a b : ComplexPoint) : ComplexPoint :=
  {| re := (re a + re b)%float; im := (im a + im b)%float |}.

Definition complexScale (a : ComplexPoint) (scalar : float) : ComplexPoint :=
  {| re := (re a * scalar)%float; im := (im a * scalar)%float |}.


(** ** The engine over math.js *)

Section MathEngine.

(** math.js: [parse] and [compile] of expression text, [evaluate] of a
    compiled expression in a scope.  [None] is a thrown exception. *)
Context {MathNode EvalFunction : Type}.
Variable parse : text -> option MathNode.
Variable compile : text -> option EvalFunction.
Variable evaluate : EvalFunction -> gmap string JSValue -> option JSValue.
Variable atan2_approx : float -> float -> float.

(** One evaluation asked of math.js. *)
Record Call : Type := { callee : EvalFunction; scope : gmap string JSValue }.

Abbreviation M := (js (list Call)).

Definition mathParse (expr : text) : M MathNode :=
  match parse expr with Some n => mret n | None => throw end.

Definition mathCompile (expr : text) : M EvalFunction :=
  match compile expr with Some c => mret c | None => throw end.

Definition mathEvaluate (c : EvalFunction) (sc : gmap string JSValue)
  : M JSValue :=
  fun l =>
    (match evaluate c sc with Some v => Normal v | None => Thrown end,
     l ++ [{| callee := c; scope := sc |}]).

(** *** src/math/parser.ts *)

Definition parseExpression (expr : text) (_variable : string) : M (option MathNode) :=
  if negb (truthy expr) || strictEquals (trim expr) "" then mret None
  else
    try_catch
      (node ← mathParse expr; mret (Some node))
      (mret None).

Definition parseAndCompile (expr : text) (variable : string)
  : M (option (ParsedExpression MathNode EvalFunction)) :=
  if negb (truthy expr) || strictEquals (trim expr) "" then mret None
  else
    try_catch
      (node ← mathParse expr;
       compiled ← mathCompile expr;
       mret (Some {| node := node; compiled := compiled; variable := variable |}))
      (mret None).


(** *** src/math/evaluator.ts *)

(** [c.re] on [null] or [undefined] throws a TypeError. *)
Definition toComplexPoint (c : JSValue) : M ComplexPoint :=
  match c with
  | JSNumber n => mret {| re := n; im := 0 |}
  | JSObject fre fim =>
      let re := match fre with Some r => r | None => 0%float end in
      let im := match fim with Some i => i | None => 0%float end in
      mret {| re := re; im := im |}
  | JSNullish => throw
  end.

Definition evaluateAt (compiled : ParsedExpression MathNode EvalFunction)
  (point : ComplexPoint) : M (option ComplexPoint) :=
  try_catch
    (let '{| compiled := evalFunction; variable := variable |} := compiled in
     let scope : gmap string JSValue :=
       {[ variable := toMathComplex point ]} in
     result ← mathEvaluate evalFunction scope;
     p ← toComplexPoint result;
     mret (Some p))
    (mret None).

Definition evaluateExpressionAt (expr : text) (variable : string)
  (point : ComplexPoint)
  : M (option ComplexPoint) :=
  try_catch
    (compiled ← mathCompile expr;
     let scope : gmap string JSValue := {[ variable := toMathComplex point ]} in
     result ← mathEvaluate compiled scope;
     p ← toComplexPoint result;
     mret (Some p))
    (mret None).

Definition evaluateAtT (expr : text) (t : float) : M (option ComplexPoint) :=
  try_catch
    (compiled ← mathCompile expr;
     let scope : gmap string JSValue := {[ "t" := JSNumber t ]} in
     result ← mathEvaluate compiled scope;
     p ← toComplexPoint result;
     mret (Some p))
    (mret None).

(** *** Generators *)

Definition mathConstants : gmap string JSValue :=
  {[ "i" := complex 0 1; "pi" := JSNumber Math.PI; "e" := JSNumber Math.E ]}.

(** [{ t, ...mathConstants }]: the spread comes last and wins. *)
Definition scopeT (t : float) : gmap string JSValue :=
  mathConstants ∪ {[ "t" := JSNumber t ]}.

(** [{ z: toMathComplex(z), ...mathConstants }] *)
Definition scopeZ (z : ComplexPoint) : gmap string JSValue :=
  mathConstants ∪ {[ "z" := toMathComplex z ]}.

(** The body of the sampling loop of [evaluateSingleContour]. *)
Definition contourStep (compiled : EvalFunction)
  (compiledTransform : option EvalFunction) (tMin dt : float)
  (step : nat) (points : list ComplexPoint) : M (list ComplexPoint) :=
  let t := (tMin + toNumber step * dt)%float in
  try_catch
    (gammaResult ← mathEvaluate compiled (scopeT t);
     point ← toComplexPoint gammaResult;
     point ← match compiledTransform with
             | Some ct =>
                 transformed ← mathEvaluate ct (scopeZ point);
                 toComplexPoint transformed
             | None => mret point
             end;
     if isFinite (re point) && isFinite (im point)
     then mret (points ++ [point])
     else mret points)
    (mret points).

Definition evaluateSingleContour (expression transformFunction : text)
  (tMin tMax : float) (tSteps : nat) : M (list ComplexPoint) :=
  if negb (truthy expression) || strictEquals (trim expression) "" then mret []
  else
    try_catch
      (compiled ← mathCompile expression;
       let hasTransform :=
         truthy transformFunction
         && negb (strictEquals (trim transformFunction) "") in
       compiledTransform ←
         (if hasTransform
          then ct ← mathCompile transformFunction; mret (Some ct)
          else mret None);
       let dt := ((tMax - tMin) / Math.max (toNumber tSteps - 1) 1)%float in
       forLoop tSteps 0 (contourStep compiled compiledTransform tMin dt) [])
      (mret []).

(** The entry of the result for one contour kept by the filter. The
    transform is a string and the speed a number, so [|| ''] and [?? 5]
    leave them as they are. *)
Definition contourData (contour : ContourEntry.t) : M ContourData.t :=
  let expression := ContourEntry.expression contour in
  let transformFunction := ContourEntry.transformFunction contour in
  points ← evaluateSingleContour expression transformFunction
             (ContourEntry.tMin contour) (ContourEntry.tMax contour)
             (ContourEntry.tSteps contour);
  mret {| ContourData.id := ContourEntry.id contour;
          ContourData.expression :=
            if truthy (trim transformFunction)
            then transformFunction ++ ("(" : text) ++ expression ++ (")" : text)
            else expression;
          ContourData.color := ContourEntry.color contour;
          ContourData.tMin := ContourEntry.tMin contour;
          ContourData.tMax := ContourEntry.tMax contour;
          ContourData.animationSpeed := ContourEntry.animationSpeed contour;
          ContourData.points := points |}.

Definition generateContourPoints (contours : list ContourEntry.t)
  : M (list ContourData.t) :=
  arrayMap contourData
    (filter (fun contour =>
               ContourEntry.enabled contour
               && negb (strictEquals (trim (ContourEntry.expression contour)) "")
               = true)
            contours).

(** *** computeContourIntegral *)

(** The four arrays and [currentSum], as the loop updates them. *)
Record IntegralState : Type :=
  { tValues : list float;
    contourPoints : list ComplexPoint;
    integrandVectors : list ComplexPoint;
    runningSum : list ComplexPoint;
    currentSum : ComplexPoint }.

Definition evalGamma (compiledGamma : EvalFunction) (t : float)
  : M (option ComplexPoint) :=
  try_catch
    (result ← mathEvaluate compiledGamma (scopeT t);
     p ← toComplexPoint result;
     mret (Some p))
    (mret None).

Definition evalF (compiledF : EvalFunction) (z : ComplexPoint)
  : M (option ComplexPoint) :=
  try_catch
    (result ← mathEvaluate compiledF (scopeZ z);
     p ← toComplexPoint result;
     mret (Some p))
    (mret None).

(** The [else] branch of the derivative: the forward difference, from a
    fresh evaluation of the curve at [t + h]. *)
Definition forwardDifference (compiledGamma : EvalFunction)
  (t h : float) (gamma : ComplexPoint) : M (option ComplexPoint) :=
  gammaNext ← evalGamma compiledGamma (t + h)%float;
  match gammaNext with
  | Some n =>
      if isFinite (re n) && isFinite (im n)
      then mret (Some {| re := ((re n - re gamma) / h)%float;
                         im := ((im n - im gamma) / h)%float |})
      else mret None
  | None => mret None
  end.

(** The body of the loop; each [mret st] that leaves [st] as it was is a
    [continue]. *)
Definition integralStep (compiledGamma compiledF : EvalFunction)
  (tMin dt h : float) (step : nat) (st : IntegralState) : M IntegralState :=
  let t := (tMin + toNumber step * dt)%float in
  gamma ← evalGamma compiledGamma t;
  match gamma with
  | None => mret st
  | Some gamma =>
      if negb (isFinite (re gamma)) || negb (isFinite (im gamma)) then mret st
      else
        gammaPlusH ← evalGamma compiledGamma (t + h)%float;
        gammaMinusH ← evalGamma compiledGamma (t - h)%float;
        gammaPrime ←
          match gammaPlusH, gammaMinusH with
          | Some p, Some m =>
              if isFinite (re p) && isFinite (im p)
                 && isFinite (re m) && isFinite (im m)
              then mret (Some {| re := ((re p - re m) / (2 * h))%float;
                                 im := ((im p - im m) / (2 * h))%float |})
              else forwardDifference compiledGamma t h gamma
          | _, _ => forwardDifference compiledGamma t h gamma
          end;
        match gammaPrime with
        | None => mret st
        | Some gammaPrime =>
            fValue ← evalF compiledF gamma;
            match fValue with
            | None => mret st
            | Some fValue =>
                if negb (isFinite (re fValue)) || negb (isFinite (im fValue))
                then mret st
                else
                  let integrand := complexMultiply fValue gammaPrime in
                  if negb (isFinite (re integrand))
                     || negb (isFinite (im integrand))
                  then mret st
                  else
                    let contribution := complexScale integrand dt in
                    let currentSum := complexAdd (currentSum st) contribution in
                    mret {| tValues := tValues st ++ [t];
                            contourPoints := contourPoints st ++ [gamma];
                            integrandVectors := integrandVectors st ++ [integrand];
                            runningSum := runningSum st ++ [currentSum];
                            currentSum := currentSum |}
            end
        end
  end.

Definition computeContourIntegral (contour : ContourEntry.t)
  : M (option ContourIntegralData.t) :=
  let expression := ContourEntry.expression contour in
  let transformFunction := ContourEntry.transformFunction contour in
  let tMin := ContourEntry.tMin contour in
  let tMax := ContourEntry.tMax contour in
  let tSteps := ContourEntry.tSteps contour in
  if negb (truthy expression) || strictEquals (trim expression) "" then mret None
  else
    let fExpr :=
      if truthy transformFunction
         && negb (strictEquals (trim transformFunction) "")
      then transformFunction else "1" in
    try_catch
      (compiledGamma ← mathCompile expression;
       compiledF ← mathCompile fExpr;
       let dt := ((tMax - tMin) / Math.max (toNumber tSteps - 1) 1)%float in
       let h := (dt * 0.01)%float in
       st ← forLoop tSteps 0 (integralStep compiledGamma compiledF tMin dt h)
              {| tValues := []; contourPoints := []; integrandVectors := [];
                 runningSum := []; currentSum := {| re := 0; im := 0 |} |};
       if (length (tValues st) =? 0)%nat then mret None
       else
         mret (Some
           {| ContourIntegralData.id := ContourEntry.id contour;
              ContourIntegralData.color := ContourEntry.color contour;
              ContourIntegralData.tValues := tValues st;
              ContourIntegralData.contourPoints := contourPoints st;
              ContourIntegralData.integrandVectors := integrandVectors st;
              ContourIntegralData.runningSum := runningSum st;
              ContourIntegralData.finalValue := currentSum st;
              ContourIntegralData.expression := expression;
              ContourIntegralData.transformFunction := fExpr |}))
      (mret None).

(** *** generateDomainColoringData *)

(** One cell: the body of the inner loop, on the two rows being filled. *)
Definition domainCell (compiled : EvalFunction) (colorBy : string)
  (xMin dx y : float) (i : nat) (rows : list float * list float)
  : M (list float * list float) :=
  let '(row, colorRow) := rows in
  let x := (xMin + toNumber i * dx)%float in
  let zInput := {| re := x; im := y |} in
  try_catch
    (result ← mathEvaluate compiled (scopeZ zInput);
     output ← toComplexPoint result;
     let value := getColorValue atan2_approx output colorBy in
     if isFinite value
     then mret (row ++ [value], colorRow ++ [value])
     else mret (row ++ [NaN], colorRow ++ [NaN]))
    (mret (row ++ [NaN], colorRow ++ [NaN])).

(** One row: the body of the outer loop. *)
Definition domainRow (compiled : EvalFunction) (colorBy : string)
  (xMin dx yMin dy : float) (resolution : nat) (j : nat)
  (grids : list (list float) * list (list float))
  : M (list (list float) * list (list float)) :=
  let '(z, colors) := grids in
  let y := (yMin + toNumber j * dy)%float in
  '(row, colorRow) ← forLoop resolution 0
                        (domainCell compiled colorBy xMin dx y) ([], []);
  mret (z ++ [row], colors ++ [colorRow]).

Definition generateDomainColoringData (config : DomainColoringConfig.t)
  : M DomainColoringData.t :=
  let expression := DomainColoringConfig.expression config in
  let xMin := DomainColoringConfig.xMin config in
  let xMax := DomainColoringConfig.xMax config in
  let yMin := DomainColoringConfig.yMin config in
  let yMax := DomainColoringConfig.yMax config in
  let resolution := DomainColoringConfig.resolution config in
  let colorBy := DomainColoringConfig.colorBy config in
  if negb (truthy expression) || strictEquals (trim expression) ""
  then mret {| DomainColoringData.z := []; DomainColoringData.colors := [] |}
  else
    try_catch
      (compiled ← mathCompile expression;
       let dx := ((xMax - xMin) / Math.max (toNumber resolution - 1) 1)%float in
       let dy := ((yMax - yMin) / Math.max (toNumber resolution - 1) 1)%float in
       '(z, colors) ← forLoop resolution 0
                        (domainRow compiled colorBy xMin dx yMin dy resolution)
                        ([], []);
       mret {| DomainColoringData.z := z; DomainColoringData.colors := colors |})
      (mret {| DomainColoringData.z := []; DomainColoringData.colors := [] |}).

(** *** generateSurface3DData *)

(** [a[k]] on an array of numbers; out of range it is [undefined], which the
    arithmetic that follows turns into NaN. *)
Definition index (a : list float) (k : nat) : float :=
  match a !! k with Some v => v | None => NaN end.

Definition surfaceCell (compiled : EvalFunction) (heightBy colorBy : string)
  (x : list float) (yVal : float) (i : nat) (rows : list float * list float)
  : M (list float * list float) :=
  let '(zRow, colorRow) := rows in
  let xVal := index x i in
  let zInput := {| re := xVal; im := yVal |} in
  try_catch
    (result ← mathEvaluate compiled (scopeZ zInput);
     output ← toComplexPoint result;
     let heightValue := getColorValue atan2_approx output heightBy in
     let colorValue := getColorValue atan2_approx output colorBy in
     let zRow := if isFinite heightValue then zRow ++ [heightValue]
                 else zRow ++ [NaN] in
     let colorRow := if isFinite colorValue then colorRow ++ [colorValue]
                     else colorRow ++ [NaN] in
     mret (zRow, colorRow))
    (mret (zRow ++ [NaN], colorRow ++ [NaN])).

Definition surfaceRow (compiled : EvalFunction) (heightBy colorBy : string)
  (x y : list float) (resolution : nat) (j : nat)
  (grids : list (list float) * list (list float))
  : M (list (list float) * list (list float)) :=
  let '(z, colors) := grids in
  let yVal := index y j in
  '(zRow, colorRow) ← forLoop resolution 0
                         (surfaceCell compiled heightBy colorBy x yVal) ([], []);
  mret (z ++ [zRow], colors ++ [colorRow]).

Definition generateSurface3DData (config : Surface3DConfig.t)
  : M Surface3DData.t :=
  let expression := Surface3DConfig.expression config in
  let xMin := Surface3DConfig.xMin config in
  let xMax := Surface3DConfig.xMax config in
  let yMin := Surface3DConfig.yMin config in
  let yMax := Surface3DConfig.yMax config in
  let resolution := Surface3DConfig.resolution config in
  let heightBy := Surface3DConfig.heightBy config in
  let colorBy := Surface3DConfig.colorBy config in
  let empty := {| Surface3DData.x := []; Surface3DData.y := [];
                  Surface3DData.z := []; Surface3DData.colors := [] |} in
  if negb (truthy expression) || strictEquals (trim expression) ""
  then mret empty
  else
    try_catch
      (compiled ← mathCompile expression;
       let dx := ((xMax - xMin) / Math.max (toNumber resolution - 1) 1)%float in
       let dy := ((yMax - yMin) / Math.max (toNumber resolution - 1) 1)%float in
       x ← forLoop resolution 0
             (fun i x => mret (x ++ [(xMin + toNumber i * dx)%float])) [];
       y ← forLoop resolution 0
             (fun j y => mret (y ++ [(yMin + toNumber j * dy)%float])) [];
       '(z, colors) ← forLoop resolution 0
                        (surfaceRow compiled heightBy colorBy x y resolution)
                        ([], []);
       mret {| Surface3DData.x := x; Surface3DData.y := y;
               Surface3DData.z := z; Surface3DData.colors := colors |})
      (mret empty).

End MathEngine.


(** * What the engine is specified to compute

    The definitions below follow the words of the specification: a sample or
    a cell is described on its own, and a whole result as a list built from
    the samples. The theorems further down relate them to the loops above. *)

Section Specification.

Context {EvalFunction : Type}.
Variable compile : text -> option EvalFunction.
Variable evaluate : EvalFunction -> gmap string JSValue -> option JSValue.
Variable atan2_approx : float -> float -> float.

(** The complex point a math.js value stands for, when it has one. *)
Definition pointOf (v : JSValue) : option ComplexPoint :=
  match v with
  | JSNumber n => Some {| re := n; im := 0 |}
  | JSObject fre fim => Some {| re := default 0%float fre; im := default 0%float fim |}
  | JSNullish => None
  end.

(** The value of a compiled expression in a scope; [None] when the
    evaluation fails. *)
Definition valueIn (c : EvalFunction) (sc : gmap string JSValue)
  : option ComplexPoint :=
  evaluate c sc ≫= pointOf.

Definition finite (p : ComplexPoint) : bool := isFinite (re p) && isFinite (im p).

(** The spacing [(max − min) / max(steps − 1, 1)]. *)
Definition spacing (lo hi : float) (steps : nat) : float :=
  ((hi - lo) / Math.max (toNumber steps - 1) 1)%float.

(** The parameter or coordinate of index [k]: [lo + k·d]. *)
Definition sampleAt (lo d : float) (k : nat) : float :=
  (lo + toNumber k * d)%float.

(** An expression that is empty once trimmed. *)
Definition blank (s : text) : bool :=
  strictEquals s "" || strictEquals (trim s) "".

(** The compiled transform of a contour: none for a blank transform, the
    compilation of its text otherwise; [None] when that compilation fails. *)
Definition transformOf (transformFunction : text)
  : option (option EvalFunction) :=
  if blank transformFunction then Some None
  else match compile transformFunction with
       | Some c => Some (Some c)
       | None => None
       end.

(** ** Contour sampling (spec 4.4) *)

(** The point of the curve at [t], sent through the transform when there is
    one; dropped when it fails to evaluate or is not finite. *)
Definition contourSample (gamma : EvalFunction) (f : option EvalFunction)
  (t : float) : option ComplexPoint :=
  g ← valueIn gamma (scopeT t);
  p ← match f with
      | Some f => valueIn f (scopeZ g)
      | None => Some g
      end;
  if finite p then Some p else None.

(** The evaluations this takes: the curve at [t], then the transform at the
    point found, when there is a transform and a point. *)
Definition contourCalls (gamma : EvalFunction) (f : option EvalFunction)
  (t : float) : list (@Call EvalFunction) :=
  {| callee := gamma; scope := scopeT t |}
  :: match f, valueIn gamma (scopeT t) with
     | Some f, Some g => [{| callee := f; scope := scopeZ g |}]
     | _, _ => []
     end.

(** ** Contour integral (spec 4.6) *)

Definition centralDifference (plus minus : ComplexPoint) (h : float)
  : ComplexPoint :=
  {| re := ((re plus - re minus) / (2 * h))%float;
     im := ((im plus - im minus) / (2 * h))%float |}.

Definition forwardDifferenceOf (plus here : ComplexPoint) (h : float)
  : ComplexPoint :=
  {| re := ((re plus - re here) / h)%float;
     im := ((im plus - im here) / h)%float |}.

(** The estimate of the derivative of the curve at [t], where the curve has
    the value [here]: the central difference when both shifted values are
    finite, else the forward difference when the value at [t + h] is, else
    none. *)
Definition derivativeAt (gamma : EvalFunction) (t h : float)
  (here : ComplexPoint) : option ComplexPoint :=
  let plus := valueIn gamma (scopeT (t + h)%float) in
  let minus := valueIn gamma (scopeT (t - h)%float) in
  match plus, minus with
  | Some p, Some m =>
      if finite p && finite m then Some (centralDifference p m h)
      else if finite p then Some (forwardDifferenceOf p here h)
      else None
  | Some p, None =>
      if finite p then Some (forwardDifferenceOf p here h) else None
  | None, _ => None
  end.

(** A sample that survives: its parameter, the point of the curve and the
    integrand vector [f(γ(t))·γ'(t)]. *)
Record Sample : Type :=
  { parameter : float; curvePoint : ComplexPoint; integrand : ComplexPoint }.

Definition integralSample (gamma f : EvalFunction) (h t : float)
  : option Sample :=
  g ← valueIn gamma (scopeT t);
  if finite g then
    g' ← derivativeAt gamma t h g;
    fz ← valueIn f (scopeZ g);
    if finite fz then
      let v := complexMultiply fz g' in
      if finite v
      then Some {| parameter := t; curvePoint := g; integrand := v |}
      else None
    else None
  else None.

(** The sum of a list of complex numbers, added from the left starting at
    zero. *)
Definition complexSum (l : list ComplexPoint) : ComplexPoint :=
  foldl complexAdd {| re := 0; im := 0 |} l.

(** The partial sums of a list: the sum of its first entry, of its first two
    entries, and so on. *)
Definition partialSums (l : list ComplexPoint) : list ComplexPoint :=
  (fun k => complexSum (take (S k) l)) <$> seq 0 (length l).

(** The text of the integrand: the transform, or the constant [1] when the
    transform is blank. *)
Definition integrandText (transformFunction : text) : text :=
  if blank transformFunction then "1" else transformFunction.

(** The result for a contour whose curve and integrand compiled to [gamma]
    and [f]: null when no sample survives. *)
Definition integralOf (contour : ContourEntry.t) (gamma f : EvalFunction)
  : option ContourIntegralData.t :=
  let tMin := ContourEntry.tMin contour in
  let dt := spacing tMin (ContourEntry.tMax contour) (ContourEntry.tSteps contour) in
  let h := (dt * 0.01)%float in
  let survivors :=
    omap (fun step => integralSample gamma f h (sampleAt tMin dt step))
         (seq 0 (ContourEntry.tSteps contour)) in
  let contributions := (fun s => complexScale (integrand s) dt) <$> survivors in
  match survivors with
  | [] => None
  | _ =>
      Some {| ContourIntegralData.id := ContourEntry.id contour;
              ContourIntegralData.color := ContourEntry.color contour;
              ContourIntegralData.tValues := parameter <$> survivors;
              ContourIntegralData.contourPoints := curvePoint <$> survivors;
              ContourIntegralData.integrandVectors := integrand <$> survivors;
              ContourIntegralData.runningSum := partialSums contributions;
              ContourIntegralData.finalValue := complexSum contributions;
              ContourIntegralData.expression := ContourEntry.expression contour;
              ContourIntegralData.transformFunction :=
                integrandText (ContourEntry.transformFunction contour) |}
  end.

(** The result the engine is specified to return for a contour: null for a
    blank curve text, when the curve or the integrand does not compile, and
    when no sample survives. *)
Definition integralResult (contour : ContourEntry.t)
  : option ContourIntegralData.t :=
  if blank (ContourEntry.expression contour) then None
  else
    match compile (ContourEntry.expression contour),
          compile (integrandText (ContourEntry.transformFunction contour)) with
    | Some gamma, Some f => integralOf contour gamma f
    | _, _ => None
    end.

(** A contour with its transform text replaced. *)
Definition withTransform (contour : ContourEntry.t) (transformFunction : text)
  : ContourEntry.t :=
  {| ContourEntry.id := ContourEntry.id contour;
     ContourEntry.expression := ContourEntry.expression contour;
     ContourEntry.transformFunction := transformFunction;
     ContourEntry.color := ContourEntry.color contour;
     ContourEntry.enabled := ContourEntry.enabled contour;
     ContourEntry.tMin := ContourEntry.tMin contour;
     ContourEntry.tMax := ContourEntry.tMax contour;
     ContourEntry.tSteps := ContourEntry.tSteps contour;
     ContourEntry.animationSpeed := ContourEntry.animationSpeed contour |}.

(** The samples of a contour that survive, in increasing step order. *)
Definition survivorsOf (contour : ContourEntry.t) (gamma f : EvalFunction)
  : list Sample :=
  let tMin := ContourEntry.tMin contour in
  let dt := spacing tMin (ContourEntry.tMax contour) (ContourEntry.tSteps contour) in
  omap (fun step => integralSample gamma f (dt * 0.01)%float (sampleAt tMin dt step))
       (seq 0 (ContourEntry.tSteps contour)).

(** The arrays and the sum after a sample is recorded; a sample that did not
    survive leaves them as they were. *)
Definition recorded (dt : float) (st : IntegralState) (s : option Sample)
  : IntegralState :=
  match s with
  | Some s =>
      let sum := complexAdd (currentSum st) (complexScale (integrand s) dt) in
      {| tValues := tValues st ++ [parameter s];
         contourPoints := contourPoints st ++ [curvePoint s];
         integrandVectors := integrandVectors st ++ [integrand s];
         runningSum := runningSum st ++ [sum];
         currentSum := sum |}
  | None => st
  end.

(** The arrays and the sum once the samples [ss] have been recorded. *)
Definition stateOf (dt : float) (ss : list Sample) : IntegralState :=
  let contributions := (fun s => complexScale (integrand s) dt) <$> ss in
  {| tValues := parameter <$> ss;
     contourPoints := curvePoint <$> ss;
     integrandVectors := integrand <$> ss;
     runningSum := partialSums contributions;
     currentSum := complexSum contributions |}.


(** ** Grids (spec 4.5) *)

(** A scalar as a grid stores it: itself when finite, the invalid marker
    otherwise. *)
Definition marked (v : float) : float := if isFinite v then v else NaN.

(** The cell of a grid for the value found at its point, under a projection:
    the invalid marker when there is no value. *)
Definition cellOf (projection : string) (value : option ComplexPoint) : float :=
  match value with
  | Some output => marked (getColorValue atan2_approx output projection)
  | None => NaN
  end.

(** The point of the plane of column [i] and row [j]. *)
Definition gridPoint (xMin dx yMin dy : float) (i j : nat) : ComplexPoint :=
  {| re := sampleAt xMin dx i; im := sampleAt yMin dy j |}.

(** The cell at row [j] and column [i] of a grid of rows. *)
Definition cellAt (grid : list (list float)) (j i : nat) : option float :=
  grid !! j ≫= (fun row => row !! i).

(** The grid of side [n] whose cell at row [j] and column [i] is
    [cell i j], row after row. *)
Definition gridOf {A} (cell : nat -> nat -> A) (n : nat) : list (list A) :=
  (fun j => (fun i => cell i j) <$> seq 0 n) <$> seq 0 n.

(** A grid of [n] rows of [n] entries each. *)
Definition rectangular (n : nat) (grid : list (list float)) : Prop :=
  length grid = n /\ Forall (fun row => length row = n) grid.

(** The coordinates [lo + k·d], [k] from 0 to [n − 1]. *)
Definition axis (lo d : float) (n : nat) : list float :=
  sampleAt lo d <$> seq 0 n.

(** The value of [f] at the point of column [i] and row [j]. *)
Definition valueAtCell (f : EvalFunction) (xMin dx yMin dy : float)
  (i j : nat) : option ComplexPoint :=
  valueIn f (scopeZ (gridPoint xMin dx yMin dy i j)).

(** One evaluation of [f] per cell, row after row. *)
Definition gridCalls (f : EvalFunction) (xMin dx yMin dy : float) (n : nat)
  : list (@Call EvalFunction) :=
  concat (gridOf (fun i j => {| callee := f;
                                scope := scopeZ (gridPoint xMin dx yMin dy i j) |})
            n).

End Specification.


(** * The expression tree and its evaluator

    Modelled from the spec: the expression parser, compiler and evaluator are
    math.js, which is not under src/. The tree is the tagged variant of spec
    section 3 and [evaluateNode] the reduction of spec section 4.3; the
    elementary functions are a table of pure functions. *)

Inductive UnaryOperator : Type := Negate.

Inductive BinaryOperator : Type := Plus | Minus | Times | Divide | Power.

Inductive ExpressionNode : Type :=
  | NumberLiteral (value : float)
  | Constant (name : string)
  | VariableNode (name : string)
  | UnaryOp (op : UnaryOperator) (operand : ExpressionNode)
  | BinaryOp (op : BinaryOperator) (left right : ExpressionNode)
  | CallNode (funcName : string) (args : list ExpressionNode).

(** Whether the variable [x] occurs in a tree. *)
Fixpoint occurs (x : string) (n : ExpressionNode) : bool :=
  match n with
  | NumberLiteral _ => false
  | Constant _ => false
  | VariableNode y => String.eqb x y
  | UnaryOp _ a => occurs x a
  | BinaryOp _ l r => occurs x l || occurs x r
  | CallNode _ args => existsb (occurs x) args
  end.

Definition isZeroComplex (z : ComplexPoint) : bool :=
  PrimFloat.is_zero (re z) && PrimFloat.is_zero (im z).

(** Division; by the zero complex number it yields the invalid sentinel. *)
Definition complexDivide (a b : ComplexPoint) : ComplexPoint :=
  if isZeroComplex b then {| re := NaN; im := NaN |}
  else
    let d := (re b * re b + im b * im b)%float in
    {| re := ((re a * re b + im a * im b) / d)%float;
       im := ((im a * re b - re a * im b) / d)%float |}.

Section Evaluator.

(** The elementary functions ([sin], [cos], [exp], [log], ...), by name. *)
Variable elementary : string -> option (ComplexPoint -> ComplexPoint).

(** [z ^ w]: [0 ^ 0] is 1, [0 ^ w] is 0, and the rest is [exp (w · log z)]. *)
Definition complexPower (z w : ComplexPoint) : option ComplexPoint :=
  if isZeroComplex z then
    if isZeroComplex w then Some {| re := 1; im := 0 |}
    else Some {| re := 0; im := 0 |}
  else
    match elementary "exp", elementary "log" with
    | Some exp, Some log => Some (exp (complexMultiply w (log z)))
    | _, _ => None
    end.

(** The reduction of a tree in a scope; [None] is an EvaluationError. *)
Fixpoint evaluateNode (scope : gmap string JSValue) (n : ExpressionNode)
  : option ComplexPoint :=
  match n with
  | NumberLiteral v => Some {| re := v; im := 0 |}
  | Constant name =>
      if String.eqb name "i" then Some {| re := 0; im := 1 |}
      else if String.eqb name "pi" then Some {| re := Math.PI; im := 0 |}
      else if String.eqb name "e" then Some {| re := Math.E; im := 0 |}
      else None
  | VariableNode name => scope !! name ≫= pointOf
  | UnaryOp Negate a =>
      v ← evaluateNode scope a;
      Some {| re := (- re v)%float; im := (- im v)%float |}
  | BinaryOp op l r =>
      a ← evaluateNode scope l;
      b ← evaluateNode scope r;
      match op with
      | Plus => Some (complexAdd a b)
      | Minus => Some {| re := (re a - re b)%float; im := (im a - im b)%float |}
      | Times => Some (complexMultiply a b)
      | Divide => Some (complexDivide a b)
      | Power => complexPower a b
      end
  | CallNode funcName args =>
      match elementary funcName, args with
      | Some f, [a] => f <$> evaluateNode scope a
      | _, _ => None
      end
  end.

(** [evaluate] of a compiled tree, as the engine calls it. *)
Definition evaluateTree (n : ExpressionNode) (scope : gmap string JSValue)
  : option JSValue :=
  (fun v => complex (re v) (im v)) <$> evaluateNode scope n.

End Evaluator.

(** ** A small instance, for the examples

    No elementary function but [abs]; [compileText] knows a handful of
    expression texts and fails on every other one. *)

Definition basicFunctions (name : string)
  : option (ComplexPoint -> ComplexPoint) :=
  if String.eqb name "abs" then Some (fun z => {| re := modulus z; im := 0 |})
  else None.

Definition compileText (expr : text) : option ExpressionNode :=
  if strictEquals expr "1" then Some (NumberLiteral 1)
  else if strictEquals expr "t" then Some (VariableNode "t")
  else if strictEquals expr "z" then Some (VariableNode "z")
  else if strictEquals expr "1/t" then
    Some (BinaryOp Divide (NumberLiteral 1) (VariableNode "t"))
  else if strictEquals expr "1/z" then
    Some (BinaryOp Divide (NumberLiteral 1) (VariableNode "z"))
  else if strictEquals expr "t+i*t" then
    Some (BinaryOp Plus (VariableNode "t")
            (BinaryOp Times (Constant "i") (VariableNode "t")))
  else if strictEquals expr "f(z)" then Some (CallNode "f" [VariableNode "z"])
  else None.


Definition evaluateText : ExpressionNode -> gmap string JSValue -> option JSValue :=
  evaluateTree basicFunctions.

(** A coarse stand-in for the implementation-approximated part of
    [Math.atan2]: the middle of the quadrant. *)
Definition quadrantAngle (y x : float) : float :=
  if (0 <? y)%float
  then (if (0 <? x)%float then Math.PI / 4 else 3 * Math.PI / 4)%float
  else (if (0 <? x)%float then - Math.PI / 4 else -3 * Math.PI / 4)%float.

(** The segment [t + i·t], [t] from 0 to 1, sampled three times. *)
Definition diagonal : ContourEntry.t :=
  {| ContourEntry.id := "c1";
     ContourEntry.expression := "t+i*t";
     ContourEntry.transformFunction := "";
     ContourEntry.color := "#ff0000";
     ContourEntry.enabled := true;
     ContourEntry.tMin := 0;
     ContourEntry.tMax := 1;
     ContourEntry.tSteps := 3;
     ContourEntry.animationSpeed := 5 |}.

(** A transform typed as white space that is not ASCII: an em space
    (U+2003) and a no-break space (U+00A0). *)
Definition wideSpaces : text := [0x2003%N; 0xA0%N].

(** The same segment, with that transform. *)
Definition spacedDiagonal : ContourEntry.t := withTransform diagonal wideSpaces.

(** [1/z] on the square [-1, 1] × [-1, 1], three points a side; the middle
    cell is the pole. *)
Definition poleGrid : DomainColoringConfig.t :=
  {| DomainColoringConfig.expression := "1/z";
     DomainColoringConfig.xMin := -1;
     DomainColoringConfig.xMax := 1;
     DomainColoringConfig.yMin := -1;
     DomainColoringConfig.yMax := 1;
     DomainColoringConfig.resolution := 3;
     DomainColoringConfig.colorBy := "modulus" |}.

Definition poleSurface : Surface3DConfig.t :=
  {| Surface3DConfig.expression := "1/z";
     Surface3DConfig.xMin := -1;
     Surface3DConfig.xMax := 1;
     Surface3DConfig.yMin := -1;
     Surface3DConfig.yMax := 1;
     Surface3DConfig.resolution := 3;
     Surface3DConfig.heightBy := "modulus";
     Surface3DConfig.colorBy := "argument" |}.

(** The range of the argument as the source documents it: [-π, π], ends
    included. *)
Definition inClosedRange (r : float) : bool :=
  (- Math.PI <=? r)%float && (r <=? Math.PI)%float.

(** The range of the argument as the specification states it: (−π, π]. *)
Definition inHalfOpenRange (r : float) : bool :=
  (- Math.PI <? r)%float && (r <=? Math.PI)%float.


(** * What the callers are specified to compute *)

Section Callers.

Context {EvalFunction : Type}.
Variable compile : text -> option EvalFunction.
Variable evaluate : EvalFunction -> gmap string JSValue -> option JSValue.

(** The points of a contour: none for a blank curve text or when the curve
    or the transform does not compile. *)
Definition contourPointsOf (expression transformFunction : text)
  (tMin tMax : float) (tSteps : nat) : list ComplexPoint :=
  if blank expression then []
  else
    match compile expression, transformOf compile transformFunction with
    | Some gamma, Some f =>
        let dt := spacing tMin tMax tSteps in
        omap (fun step => contourSample evaluate gamma f (sampleAt tMin dt step))
             (seq 0 tSteps)
    | _, _ => []
    end.

(** A contour that is drawn: enabled, with a curve text that is not blank. *)
Definition drawn (contour : ContourEntry.t) : bool :=
  ContourEntry.enabled contour && negb (blank (ContourEntry.expression contour)).

(** The label of a drawn contour: [f(γ)] when it has a transform. *)
Definition labelOf (contour : ContourEntry.t) : text :=
  if blank (ContourEntry.transformFunction contour)
  then ContourEntry.expression contour
  else ContourEntry.transformFunction contour ++ ("(" : text)
       ++ ContourEntry.expression contour ++ (")" : text).

(** The entry of the result for a drawn contour. *)
Definition entryOf (contour : ContourEntry.t) : ContourData.t :=
  {| ContourData.id := ContourEntry.id contour;
     ContourData.points :=
       contourPointsOf (ContourEntry.expression contour)
         (ContourEntry.transformFunction contour) (ContourEntry.tMin contour)
         (ContourEntry.tMax contour) (ContourEntry.tSteps contour);
     ContourData.color := ContourEntry.color contour;
     ContourData.expression := labelOf contour;
     ContourData.tMin := ContourEntry.tMin contour;
     ContourData.tMax := ContourEntry.tMax contour;
     ContourData.animationSpeed := ContourEntry.animationSpeed contour |}.

End Callers.
(** * Proofs *)

(** ** Running computations *)

Ltac js_unfold :=
  unfold mathEvaluate, mathCompile, mathParse, toComplexPoint in *;
  unfold mbind, js_mbind, js_bind, mret, js_mret, js_ret, try_catch, throw in *.

Section Loops.

Context {L St : Type}.

(** A loop whose body never throws runs its body over the indices in
    order, and logs what each turn logs. *)
Lemma forLoop_run (body : nat -> St -> js (list L) St)
  (step : nat -> St -> St) (calls : nat -> list L) :
  (forall k s l, body k s l = (Normal (step k s), l ++ calls k)) ->
  forall count from s l,
    forLoop count from body s l
    = (Normal (foldl (fun s k => step k s) s (seq from count)),
       l ++ concat (calls <$> seq from count)).
Proof.
  intros Hbody count. induction count as [|count IH]; intros from s l.
  - simpl. js_unfold. by rewrite app_nil_r.
  - simpl. js_unfold. rewrite Hbody, IH. by rewrite <- app_assoc.
Qed.


End Loops.

Lemma foldl_snoc_omap {A B} (f : A -> option B) (ks : list A) (acc : list B) :
  foldl (fun acc k => acc ++ option_list (f k)) acc ks = acc ++ omap f ks.
Proof.
  revert acc. induction ks as [|k ks IH]; intros acc; simpl.
  - by rewrite app_nil_r.
  - rewrite IH. destruct (f k); simpl; by rewrite <- ?app_assoc, ?app_nil_r.
Qed.

Lemma length_omap_le {A B} (f : A -> option B) (l : list A) :
  length (omap f l) <= length l.
Proof.
  unfold omap. induction l as [|a l IH]; simpl; [lia|].
  destruct (f a); simpl; lia.
Qed.

Lemma blank_spec (s : text) :
  negb (truthy s) || strictEquals (trim s) "" = blank s.
Proof. unfold truthy, blank. by rewrite negb_involutive. Qed.

Lemma hasTransform_spec (s : text) :
  truthy s && negb (strictEquals (trim s) "") = negb (blank s).
Proof. unfold truthy, blank. by rewrite negb_orb. Qed.

Section EngineProofs.

Context {MathNode EvalFunction : Type}.
Variable parse : text -> option MathNode.
Variable compile : text -> option EvalFunction.
Variable evaluate : EvalFunction -> gmap string JSValue -> option JSValue.
Variable atan2_approx : float -> float -> float.

Lemma evalGamma_run (c : EvalFunction) (t : float) (l : list Call) :
  evalGamma evaluate c t l
  = (Normal (valueIn evaluate c (scopeT t)),
     l ++ [{| callee := c; scope := scopeT t |}]).
Proof.
  unfold evalGamma, valueIn. js_unfold.
  destruct (evaluate c (scopeT t)) as [[]|]; reflexivity.
Qed.

Lemma evalF_run (c : EvalFunction) (z : ComplexPoint) (l : list Call) :
  evalF evaluate c z l
  = (Normal (valueIn evaluate c (scopeZ z)),
     l ++ [{| callee := c; scope := scopeZ z |}]).
Proof.
  unfold evalF, valueIn. js_unfold.
  destruct (evaluate c (scopeZ z)) as [[]|]; reflexivity.
Qed.

(** One turn of the sampling loop appends the sample, if any. *)
Lemma contourStep_run (gamma : EvalFunction) (f : option EvalFunction)
  (tMin dt : float) (step : nat) (points : list ComplexPoint) (l : list Call) :
  contourStep evaluate gamma f tMin dt step points l
  = (Normal (points ++ option_list
               (contourSample evaluate gamma f (sampleAt tMin dt step))),
     l ++ contourCalls evaluate gamma f (sampleAt tMin dt step)).
Proof.
  unfold contourStep, contourSample, contourCalls, valueIn, sampleAt, finite.
  js_unfold.
  destruct f as [f|];
    (destruct (evaluate gamma _) as [[n|[r|] [i|]|]|]; simpl).
  all: repeat match goal with
         | |- context [evaluate ?c ?s] =>
             destruct (evaluate c s) as [[?|[?|] [?|]|]|]; simpl
         | |- context [isFinite ?x && isFinite ?y] =>
             destruct (isFinite x && isFinite y); simpl
         | |- context [if isFinite ?x then _ else _] =>
             destruct (isFinite x); simpl
         end.
  all: by rewrite <- ?app_assoc, ?app_nil_r.
Qed.

(** Sampling, for a curve and a transform that compiled. *)
Lemma evaluateSingleContour_run (expression transformFunction : text)
  (tMin tMax : float) (tSteps : nat) (gamma : EvalFunction)
  (f : option EvalFunction) (l : list Call) :
  blank expression = false ->
  compile expression = Some gamma ->
  transformOf compile transformFunction = Some f ->
  let dt := spacing tMin tMax tSteps in
  evaluateSingleContour compile evaluate expression transformFunction
    tMin tMax tSteps l
  = (Normal (omap (fun step => contourSample evaluate gamma f
                                 (sampleAt tMin dt step)) (seq 0 tSteps)),
     l ++ concat ((fun step => contourCalls evaluate gamma f (sampleAt tMin dt step))
                    <$> seq 0 tSteps)).
Proof.
  intros Hne Hc Hf dt.
  unfold evaluateSingleContour. rewrite blank_spec, Hne, hasTransform_spec.
  unfold transformOf in Hf. js_unfold. rewrite Hc.
  assert (Hloop := forLoop_run
    (contourStep evaluate gamma f tMin dt)
    (fun step pts => pts ++ option_list
       (contourSample evaluate gamma f (sampleAt tMin dt step)))
    (fun step => contourCalls evaluate gamma f (sampleAt tMin dt step))
    (contourStep_run gamma f tMin dt) tSteps 0 [] l).
  cbv beta in Hloop. rewrite foldl_snoc_omap in Hloop. simpl in Hloop.
  subst dt. unfold spacing in *.
  destruct (blank transformFunction); simpl.
  - injection Hf as <-. by rewrite Hloop.
  - destruct (compile transformFunction); [|done].
    injection Hf as <-. simpl. by rewrite Hloop.
Qed.


End EngineProofs.

(** ** The contour integral *)

Lemma complexSum_snoc (l : list ComplexPoint) (v : ComplexPoint) :
  complexSum (l ++ [v]) = complexAdd (complexSum l) v.
Proof. unfold complexSum. by rewrite foldl_app. Qed.

Lemma partialSums_snoc (l : list ComplexPoint) (v : ComplexPoint) :
  partialSums (l ++ [v]) = partialSums l ++ [complexSum (l ++ [v])].
Proof.
  unfold partialSums. rewrite length_app. simpl.
  rewrite Nat.add_1_r, seq_S, fmap_app. simpl. f_equal.
  - apply list_fmap_ext. intros i k Hk.
    apply lookup_seq in Hk as [-> Hlt]. simpl.
    f_equal. destruct l as [|a l]; [simpl in Hlt; lia|].
    simpl. f_equal. apply take_app_le. simpl in Hlt. lia.
  - do 2 f_equal. change (l ++ [v]) with (l ++ [v]) at 2.
    rewrite <- (firstn_all (l ++ [v])) at 2.
    by rewrite length_app, Nat.add_1_r.
Qed.




Section IntegralProofs.

Context {EvalFunction : Type}.
Variable compile : text -> option EvalFunction.
Variable evaluate : EvalFunction -> gmap string JSValue -> option JSValue.

(** A loop whose body never throws, whatever it logs. *)
Lemma forLoop_state {St : Type}
  (body : nat -> St -> js (list (@Call EvalFunction)) St)
  (step : nat -> St -> St) :
  (forall k s l, exists l', body k s l = (Normal (step k s), l')) ->
  forall count from s l, exists l',
    forLoop count from body s l
    = (Normal (foldl (fun s k => step k s) s (seq from count)), l').
Proof.
  intros Hbody count. induction count as [|count IH]; intros from s l.
  - exists l. reflexivity.
  - simpl. js_unfold. destruct (Hbody from s l) as [l1 ->].
    destruct (IH (S from) (step from s) l1) as [l2 ->]. by exists l2.
Qed.

(** One turn of the loop records the sample, if it survives. *)
Lemma integralStep_run (gamma f : EvalFunction) (tMin dt h : float)
  (step : nat) (st : IntegralState) (l : list Call) :
  exists l',
    integralStep evaluate gamma f tMin dt h step st l
    = (Normal (recorded dt st
                 (integralSample evaluate gamma f h (sampleAt tMin dt step))),
       l').
Proof.
  unfold integralStep, forwardDifference, integralSample, derivativeAt,
    sampleAt, finite, recorded, centralDifference, forwardDifferenceOf.
  js_unfold.
  repeat (first
    [ rewrite evalGamma_run
    | rewrite evalF_run
    | match goal with
      | H : valueIn evaluate ?c ?s = _ |- context [valueIn evaluate ?c ?s] =>
          rewrite H
      | H : isFinite ?x = _ |- context [isFinite ?x] => rewrite H
      | |- context [valueIn evaluate ?c ?s] =>
          destruct (valueIn evaluate c s) as [?|] eqn:?
      | |- context [isFinite ?x] => destruct (isFinite x) eqn:?
      end ]; simpl).
  all: by eexists.
Qed.

Lemma foldl_recorded {A} (dt : float) (sample : A -> option Sample)
  (ks : list A) (st : IntegralState) :
  foldl (fun st k => recorded dt st (sample k)) st ks
  = foldl (fun st s => recorded dt st (Some s)) st (omap sample ks).
Proof.
  revert st. induction ks as [|k ks IH]; intros st; [done|].
  simpl. rewrite IH. by destruct (sample k).
Qed.

Lemma recorded_stateOf (dt : float) (ss : list Sample) :
  foldl (fun st s => recorded dt st (Some s)) (stateOf dt []) ss = stateOf dt ss.
Proof.
  induction ss as [|s ss IH] using rev_ind; [done|].
  rewrite foldl_app, IH. unfold stateOf.
  rewrite !fmap_app. cbn [fmap list_fmap foldl recorded].
  by rewrite partialSums_snoc, !complexSum_snoc.
Qed.

Lemma integrandText_spec (s : text) :
  (if truthy s && negb (strictEquals (trim s) "") then s else "1")
  = integrandText s.
Proof. rewrite hasTransform_spec. unfold integrandText. by destruct (blank s). Qed.

(** The engine always ends normally, with the specified result. *)
Lemma computeContourIntegral_run (contour : ContourEntry.t) (l : list Call) :
  exists l',
    computeContourIntegral compile evaluate contour l
    = (Normal (integralResult compile evaluate contour), l').
Proof.
  unfold computeContourIntegral, integralResult.
  rewrite blank_spec, integrandText_spec.
  destruct (blank (ContourEntry.expression contour)); [by eexists|].
  js_unfold.
  destruct (compile (ContourEntry.expression contour)) as [gamma|];
    [|by eexists].
  destruct (compile (integrandText _)) as [f|]; [|by eexists].
  cbv beta iota zeta.
  set (dt := ((ContourEntry.tMax contour - ContourEntry.tMin contour)
              / Math.max (toNumber (ContourEntry.tSteps contour) - 1) 1)%float).
  destruct (forLoop_state
    (integralStep evaluate gamma f (ContourEntry.tMin contour) dt (dt * 0.01)%float)
    (fun step st => recorded dt st
       (integralSample evaluate gamma f (dt * 0.01)%float
          (sampleAt (ContourEntry.tMin contour) dt step)))
    (integralStep_run gamma f (ContourEntry.tMin contour) dt (dt * 0.01)%float)
    (ContourEntry.tSteps contour) 0
    {| tValues := []; contourPoints := []; integrandVectors := [];
       runningSum := []; currentSum := {| re := 0; im := 0 |} |} l)
    as [l' Hloop].
  rewrite Hloop. cbv beta.
  rewrite (foldl_recorded dt).
  change {| tValues := []; contourPoints := []; integrandVectors := [];
            runningSum := []; currentSum := {| re := 0; im := 0 |} |}
    with (stateOf dt []).
  rewrite recorded_stateOf.
  unfold integralOf, spacing. fold dt.
  destruct (omap _ (seq 0 (ContourEntry.tSteps contour))) as [|s ss];
    by eexists.
Qed.


Lemma integralSample_Some (gamma f : EvalFunction) (h t : float) (s : Sample) :
  integralSample evaluate gamma f h t = Some s ->
  exists g g' fz,
    valueIn evaluate gamma (scopeT t) = Some g /\ finite g = true
    /\ derivativeAt evaluate gamma t h g = Some g'
    /\ valueIn evaluate f (scopeZ g) = Some fz /\ finite fz = true
    /\ finite (complexMultiply fz g') = true
    /\ s = {| parameter := t; curvePoint := g;
              integrand := complexMultiply fz g' |}.
Proof.
  unfold integralSample.
  destruct (valueIn evaluate gamma (scopeT t)) as [g|] eqn:Hgamma; simpl; [|done].
  destruct (finite g) eqn:Hg; [|done].
  destruct (derivativeAt evaluate gamma t h g) as [g'|] eqn:Hd; simpl; [|done].
  destruct (valueIn evaluate f (scopeZ g)) as [fz|] eqn:Hz; simpl; [|done].
  destruct (finite fz) eqn:Hfz; [|done].
  destruct (finite (complexMultiply fz g')) eqn:Hv; [|done].
  intros [= <-]. exists g, g', fz. by repeat split.
Qed.


(** C5. The engine never throws. Its result is null exactly when the curve
    text is blank, when the curve or the integrand does not compile, or when
    no sample survives; and a blank transform is integrated as the constant
    text 1. *)
Theorem contour_integral_null (contour : ContourEntry.t) (l : list Call) :
  let expression := ContourEntry.expression contour in
  let fExpr := integrandText (ContourEntry.transformFunction contour) in
  (exists r l',
     computeContourIntegral compile evaluate contour l = (Normal r, l')
     /\ (r = None <->
         blank expression = true
         \/ compile expression = None
         \/ compile fExpr = None
         \/ exists gamma f,
              compile expression = Some gamma /\ compile fExpr = Some f
              /\ survivorsOf evaluate contour gamma f = []))
  /\ (blank (ContourEntry.transformFunction contour) = true ->
      fExpr = "1"
      /\ computeContourIntegral compile evaluate contour l
         = computeContourIntegral compile evaluate (withTransform contour "1") l).
Proof.
  intros expression fExpr. split.
  - destruct (computeContourIntegral_run contour l) as [l' Hrun].
    exists (integralResult compile evaluate contour), l'. split; [done|].
    unfold integralResult. fold expression fExpr.
    destruct (blank expression); [naive_solver|].
    destruct (compile expression) as [gamma|] eqn:Hg; [|naive_solver].
    destruct (compile fExpr) as [f|] eqn:Hf; [|naive_solver].
    assert (Hs : integralOf evaluate contour gamma f = None
                 <-> survivorsOf evaluate contour gamma f = []).
    { unfold integralOf, survivorsOf. by destruct (omap _ _). }
    rewrite Hs. split.
    + intros Hnil. do 3 right. by exists gamma, f.
    + intros [?|[?|[?|(g & f' & ? & ? & ?)]]]; try done. by simplify_eq.
  - intros Hb. subst fExpr. unfold integrandText. rewrite Hb. split; [done|].
    unfold computeContourIntegral.
    cbn [withTransform ContourEntry.id ContourEntry.expression
         ContourEntry.transformFunction ContourEntry.color ContourEntry.tMin
         ContourEntry.tMax ContourEntry.tSteps].
    rewrite !integrandText_spec. unfold integrandText. rewrite Hb.
    reflexivity.
Qed.



End IntegralProofs.

(** ** Grids *)

Lemma foldl_snoc_pair {A B C} (f : A -> B) (g : A -> C) (ks : list A)
  (r : list B) (c : list C) :
  foldl (fun (rows : list B * list C) k => (rows.1 ++ [f k], rows.2 ++ [g k]))
    (r, c) ks
  = (r ++ (f <$> ks), c ++ (g <$> ks)).
Proof.
  revert r c. induction ks as [|k ks IH]; intros r c; simpl.
  - by rewrite !app_nil_r.
  - rewrite IH. by rewrite <- !app_assoc.
Qed.

Lemma foldl_snoc_fmap {A B} (f : A -> B) (ks : list A) (acc : list B) :
  foldl (fun acc k => acc ++ [f k]) acc ks = acc ++ (f <$> ks).
Proof.
  revert acc. induction ks as [|k ks IH]; intros acc; simpl.
  - by rewrite app_nil_r.
  - rewrite IH. by rewrite <- app_assoc.
Qed.

Lemma forLoop_pure {L St : Type} (body : nat -> St -> js L St)
  (step : nat -> St -> St) :
  (forall k s l, body k s l = (Normal (step k s), l)) ->
  forall count from s l,
    forLoop count from body s l
    = (Normal (foldl (fun s k => step k s) s (seq from count)), l).
Proof.
  intros Hbody count. induction count as [|count IH]; intros from s l; [done|].
  simpl. js_unfold. by rewrite Hbody, IH.
Qed.

Lemma gridOf_rectangular (cell : nat -> nat -> float) (n : nat) :
  rectangular n (gridOf cell n).
Proof.
  unfold rectangular, gridOf. split.
  - by rewrite length_fmap, length_seq.
  - apply Forall_fmap, Forall_forall. intros j _. simpl.
    by rewrite length_fmap, length_seq.
Qed.

Lemma cellAt_gridOf (cell : nat -> nat -> float) (n i j : nat) :
  i < n -> j < n -> cellAt (gridOf cell n) j i = Some (cell i j).
Proof.
  intros Hi Hj. unfold cellAt, gridOf.
  rewrite list_lookup_fmap, lookup_seq_lt by done. simpl.
  by rewrite list_lookup_fmap, lookup_seq_lt.
Qed.

Lemma gridOf_ext {A} (c1 c2 : nat -> nat -> A) (n : nat) :
  (forall i j, i < n -> j < n -> c1 i j = c2 i j) -> gridOf c1 n = gridOf c2 n.
Proof.
  intros Hc. unfold gridOf. apply list_fmap_ext. intros ? j Hj.
  apply lookup_seq in Hj as [-> Hj]. apply list_fmap_ext. intros ? i' Hi.
  apply lookup_seq in Hi as [-> Hi]. by apply Hc.
Qed.

Lemma length_concat_rows {A B C} (f : A -> B -> C) (rows : list B)
  (cols : list A) :
  length (concat ((fun j => (fun i => f i j) <$> cols) <$> rows))
  = length rows * length cols.
Proof.
  induction rows as [|j rows IH]; [done|].
  rewrite fmap_cons. simpl. rewrite length_app, length_fmap, IH. lia.
Qed.

Lemma length_gridCalls {EvalFunction} (f : EvalFunction)
  (xMin dx yMin dy : float) (n : nat) :
  length (gridCalls f xMin dx yMin dy n) = n * n.
Proof.
  unfold gridCalls, gridOf. by rewrite length_concat_rows, length_seq.
Qed.

Lemma concat_fmap_singleton {A B} (f : A -> B) (l : list A) :
  concat ((fun a => [f a]) <$> l) = f <$> l.
Proof. induction l as [|a l IH]; [done|]. rewrite !fmap_cons. simpl. by rewrite IH. Qed.

Section GridProofs.

Context {EvalFunction : Type}.
Variable compile : text -> option EvalFunction.
Variable evaluate : EvalFunction -> gmap string JSValue -> option JSValue.
Variable atan2_approx : float -> float -> float.

Lemma domainCell_run (f : EvalFunction) (colorBy : string)
  (xMin dx y : float) (i : nat) (rows : list float * list float)
  (l : list Call) :
  let zInput := {| re := sampleAt xMin dx i; im := y |} in
  let v := cellOf atan2_approx colorBy (valueIn evaluate f (scopeZ zInput)) in
  domainCell evaluate atan2_approx f colorBy xMin dx y i rows l
  = (Normal (rows.1 ++ [v], rows.2 ++ [v]),
     l ++ [{| callee := f; scope := scopeZ zInput |}]).
Proof.
  destruct rows as [row colorRow].
  unfold domainCell, cellOf, valueIn, marked, sampleAt. js_unfold.
  destruct (evaluate f _) as [[?|[?|] [?|]|]|]; simpl; try done.
  all: by destruct (isFinite _).
Qed.

Lemma domainRow_run (f : EvalFunction) (colorBy : string)
  (xMin dx yMin dy : float) (resolution j : nat)
  (grids : list (list float) * list (list float)) (l : list Call) :
  let cell i :=
    cellOf atan2_approx colorBy (valueAtCell evaluate f xMin dx yMin dy i j) in
  let row := cell <$> seq 0 resolution in
  domainRow evaluate atan2_approx f colorBy xMin dx yMin dy resolution j grids l
  = (Normal (grids.1 ++ [row], grids.2 ++ [row]),
     l ++ ((fun i => {| callee := f;
                        scope := scopeZ (gridPoint xMin dx yMin dy i j) |})
             <$> seq 0 resolution)).
Proof.
  destruct grids as [z colors]. intros cell row.
  unfold domainRow. js_unfold.
  rewrite (forLoop_run _
    (fun i (rows : list float * list float) =>
       (rows.1 ++ [cell i], rows.2 ++ [cell i]))
    (fun i => [{| callee := f;
                  scope := scopeZ (gridPoint xMin dx yMin dy i j) |}])
    (domainCell_run f colorBy xMin dx (sampleAt yMin dy j))).
  rewrite (foldl_snoc_pair cell cell), concat_fmap_singleton. done.
Qed.

Lemma generateDomainColoringData_run (config : DomainColoringConfig.t)
  (f : EvalFunction) (l : list Call) :
  blank (DomainColoringConfig.expression config) = false ->
  compile (DomainColoringConfig.expression config) = Some f ->
  let n := DomainColoringConfig.resolution config in
  let xMin := DomainColoringConfig.xMin config in
  let yMin := DomainColoringConfig.yMin config in
  let dx := spacing xMin (DomainColoringConfig.xMax config) n in
  let dy := spacing yMin (DomainColoringConfig.yMax config) n in
  let grid :=
    gridOf (fun i j => cellOf atan2_approx (DomainColoringConfig.colorBy config)
                         (valueAtCell evaluate f xMin dx yMin dy i j)) n in
  generateDomainColoringData compile evaluate atan2_approx config l
  = (Normal {| DomainColoringData.z := grid; DomainColoringData.colors := grid |},
     l ++ gridCalls f xMin dx yMin dy n).
Proof.
  intros Hne Hc n xMin yMin dx dy grid.
  unfold generateDomainColoringData. rewrite blank_spec, Hne.
  js_unfold. rewrite Hc. cbv beta iota zeta.
  fold n xMin yMin. fold (spacing xMin (DomainColoringConfig.xMax config) n).
  fold (spacing yMin (DomainColoringConfig.yMax config) n). fold dx dy.
  rewrite (forLoop_run _
    (fun j (grids : list (list float) * list (list float)) =>
       (grids.1 ++ [(fun i => cellOf atan2_approx
                                (DomainColoringConfig.colorBy config)
                                (valueAtCell evaluate f xMin dx yMin dy i j))
                      <$> seq 0 n],
        grids.2 ++ [(fun i => cellOf atan2_approx
                                (DomainColoringConfig.colorBy config)
                                (valueAtCell evaluate f xMin dx yMin dy i j))
                      <$> seq 0 n]))
    (fun j => (fun i => {| callee := f;
                           scope := scopeZ (gridPoint xMin dx yMin dy i j) |})
                <$> seq 0 n)
    (domainRow_run f (DomainColoringConfig.colorBy config) xMin dx yMin dy n)).
  by rewrite foldl_snoc_pair.
Qed.

Lemma index_axis (lo d : float) (n k : nat) :
  k < n -> index (axis lo d n) k = sampleAt lo d k.
Proof.
  intros Hk. unfold index, axis. by rewrite list_lookup_fmap, lookup_seq_lt.
Qed.

Lemma surfaceCell_run (f : EvalFunction) (heightBy colorBy : string)
  (x : list float) (yVal : float) (i : nat) (rows : list float * list float)
  (l : list Call) :
  let zInput := {| re := index x i; im := yVal |} in
  let value := valueIn evaluate f (scopeZ zInput) in
  surfaceCell evaluate atan2_approx f heightBy colorBy x yVal i rows l
  = (Normal (rows.1 ++ [cellOf atan2_approx heightBy value],
             rows.2 ++ [cellOf atan2_approx colorBy value]),
     l ++ [{| callee := f; scope := scopeZ zInput |}]).
Proof.
  destruct rows as [zRow colorRow].
  unfold surfaceCell, cellOf, valueIn, marked. js_unfold.
  destruct (evaluate f _) as [[?|[?|] [?|]|]|]; simpl; try done.
  all: by repeat destruct (isFinite _).
Qed.

Lemma surfaceRow_run (f : EvalFunction) (heightBy colorBy : string)
  (x y : list float) (resolution j : nat)
  (grids : list (list float) * list (list float)) (l : list Call) :
  let zInput i := {| re := index x i; im := index y j |} in
  let value i := valueIn evaluate f (scopeZ (zInput i)) in
  surfaceRow evaluate atan2_approx f heightBy colorBy x y resolution j grids l
  = (Normal
       (grids.1 ++ [(fun i => cellOf atan2_approx heightBy (value i))
                      <$> seq 0 resolution],
        grids.2 ++ [(fun i => cellOf atan2_approx colorBy (value i))
                      <$> seq 0 resolution]),
     l ++ ((fun i => {| callee := f; scope := scopeZ (zInput i) |})
             <$> seq 0 resolution)).
Proof.
  destruct grids as [z colors]. intros zInput value.
  unfold surfaceRow. js_unfold.
  rewrite (forLoop_run _
    (fun i (rows : list float * list float) =>
       (rows.1 ++ [cellOf atan2_approx heightBy (value i)],
        rows.2 ++ [cellOf atan2_approx colorBy (value i)]))
    (fun i => [{| callee := f; scope := scopeZ (zInput i) |}])
    (surfaceCell_run f heightBy colorBy x (index y j))).
  rewrite (foldl_snoc_pair (fun i => cellOf atan2_approx heightBy (value i))
             (fun i => cellOf atan2_approx colorBy (value i))).
  by rewrite concat_fmap_singleton.
Qed.

Lemma generateSurface3DData_run (config : Surface3DConfig.t)
  (f : EvalFunction) (l : list Call) :
  blank (Surface3DConfig.expression config) = false ->
  compile (Surface3DConfig.expression config) = Some f ->
  let n := Surface3DConfig.resolution config in
  let xMin := Surface3DConfig.xMin config in
  let yMin := Surface3DConfig.yMin config in
  let dx := spacing xMin (Surface3DConfig.xMax config) n in
  let dy := spacing yMin (Surface3DConfig.yMax config) n in
  let value := valueAtCell evaluate f xMin dx yMin dy in
  generateSurface3DData compile evaluate atan2_approx config l
  = (Normal
       {| Surface3DData.x := axis xMin dx n;
          Surface3DData.y := axis yMin dy n;
          Surface3DData.z :=
            gridOf (fun i j => cellOf atan2_approx
                                 (Surface3DConfig.heightBy config) (value i j)) n;
          Surface3DData.colors :=
            gridOf (fun i j => cellOf atan2_approx
                                 (Surface3DConfig.colorBy config) (value i j)) n |},
     l ++ gridCalls f xMin dx yMin dy n).
Proof.
  intros Hne Hc n xMin yMin dx dy value.
  unfold generateSurface3DData. rewrite blank_spec, Hne.
  js_unfold. rewrite Hc. cbv beta iota zeta.
  fold n xMin yMin. fold (spacing xMin (Surface3DConfig.xMax config) n).
  fold (spacing yMin (Surface3DConfig.yMax config) n). fold dx dy.
  rewrite (forLoop_pure _ (fun i (x : list float) => x ++ [sampleAt xMin dx i]))
    by done.
  rewrite (forLoop_pure _ (fun j (y : list float) => y ++ [sampleAt yMin dy j]))
    by done.
  rewrite !foldl_snoc_fmap. simpl.
  fold (axis xMin dx n) (axis yMin dy n).
  set (x := axis xMin dx n). set (y := axis yMin dy n).
  rewrite (forLoop_run _
    (fun j (grids : list (list float) * list (list float)) =>
       (grids.1 ++ [(fun i => cellOf atan2_approx (Surface3DConfig.heightBy config)
                      (valueIn evaluate f
                         (scopeZ {| re := index x i; im := index y j |})))
                      <$> seq 0 n],
        grids.2 ++ [(fun i => cellOf atan2_approx (Surface3DConfig.colorBy config)
                      (valueIn evaluate f
                         (scopeZ {| re := index x i; im := index y j |})))
                      <$> seq 0 n]))
    (fun j => (fun i => {| callee := f;
                           scope := scopeZ {| re := index x i; im := index y j |} |})
                <$> seq 0 n)
    (surfaceRow_run f (Surface3DConfig.heightBy config)
       (Surface3DConfig.colorBy config) x y n)).
  rewrite (foldl_snoc_pair
    (fun j => (fun i => cellOf atan2_approx (Surface3DConfig.heightBy config)
                 (valueIn evaluate f
                    (scopeZ {| re := index x i; im := index y j |})))
              <$> seq 0 n)
    (fun j => (fun i => cellOf atan2_approx (Surface3DConfig.colorBy config)
                 (valueIn evaluate f
                    (scopeZ {| re := index x i; im := index y j |})))
              <$> seq 0 n)).
  simpl.
  assert (Hpoint : forall i j, i < n -> j < n ->
    {| re := index x i; im := index y j |} = gridPoint xMin dx yMin dy i j).
  { intros i j Hi Hj. unfold gridPoint, x, y. by rewrite !index_axis. }
  f_equal; [f_equal; f_equal|f_equal; unfold gridCalls; f_equal].
  all: apply gridOf_ext; intros i j Hi Hj.
  all: unfold value, valueAtCell; by rewrite Hpoint.
Qed.

End GridProofs.

Lemma cellOf_None (atan2_approx : float -> float -> float) (p : string) :
  cellOf atan2_approx p None = NaN.
Proof. done. Qed.

Lemma cellOf_not_finite (atan2_approx : float -> float -> float) (p : string)
  (out : ComplexPoint) :
  isFinite (getColorValue atan2_approx out p) = false ->
  cellOf atan2_approx p (Some out) = NaN.
Proof. unfold cellOf, marked. by intros ->. Qed.

Lemma cellOf_finite (atan2_approx : float -> float -> float) (p : string)
  (out : ComplexPoint) :
  isFinite (getColorValue atan2_approx out p) = true ->
  cellOf atan2_approx p (Some out) = getColorValue atan2_approx out p.
Proof. unfold cellOf, marked. by intros ->. Qed.

Section GridTheorems.

Context {EvalFunction : Type}.
Variable compile : text -> option EvalFunction.
Variable evaluate : EvalFunction -> gmap string JSValue -> option JSValue.
Variable atan2_approx : float -> float -> float.

(** C3. For a domain-coloring configuration and a surface configuration
    whose expressions are not blank and compile: each generator ends normally
    with grids of exactly [resolution] rows of exactly [resolution] entries;
    the cell of row j and column i is decided by the evaluation at its own
    point alone; it is the invalid marker NaN, which is not a finite number,
    when that evaluation fails or when the projected scalar is not finite, and
    the projected scalar otherwise; and a cell on which two behaviours of
    math.js agree is the same whatever they do at the other cells. *)
Theorem grid_shape_and_marking (dc : DomainColoringConfig.t)
  (sc : Surface3DConfig.t) (f g : EvalFunction) (l : list Call) :
  blank (DomainColoringConfig.expression dc) = false ->
  compile (DomainColoringConfig.expression dc) = Some f ->
  blank (Surface3DConfig.expression sc) = false ->
  compile (Surface3DConfig.expression sc) = Some g ->
  let n := DomainColoringConfig.resolution dc in
  let m := Surface3DConfig.resolution sc in
  let domainValue ev :=
    valueAtCell ev f (DomainColoringConfig.xMin dc)
      (spacing (DomainColoringConfig.xMin dc) (DomainColoringConfig.xMax dc) n)
      (DomainColoringConfig.yMin dc)
      (spacing (DomainColoringConfig.yMin dc) (DomainColoringConfig.yMax dc) n) in
  let surfaceValue ev :=
    valueAtCell ev g (Surface3DConfig.xMin sc)
      (spacing (Surface3DConfig.xMin sc) (Surface3DConfig.xMax sc) m)
      (Surface3DConfig.yMin sc)
      (spacing (Surface3DConfig.yMin sc) (Surface3DConfig.yMax sc) m) in
  exists d s l1 l2,
    generateDomainColoringData compile evaluate atan2_approx dc l = (Normal d, l1)
    /\ generateSurface3DData compile evaluate atan2_approx sc l = (Normal s, l2)
    /\ rectangular n (DomainColoringData.z d)
    /\ rectangular n (DomainColoringData.colors d)
    /\ rectangular m (Surface3DData.z s)
    /\ rectangular m (Surface3DData.colors s)
    /\ (forall i j, i < n -> j < n ->
         let cell := cellOf atan2_approx (DomainColoringConfig.colorBy dc)
                       (domainValue evaluate i j) in
         cellAt (DomainColoringData.z d) j i = Some cell
         /\ cellAt (DomainColoringData.colors d) j i = Some cell)
    /\ (forall i j, i < m -> j < m ->
         cellAt (Surface3DData.z s) j i
         = Some (cellOf atan2_approx (Surface3DConfig.heightBy sc)
                   (surfaceValue evaluate i j))
         /\ cellAt (Surface3DData.colors s) j i
            = Some (cellOf atan2_approx (Surface3DConfig.colorBy sc)
                      (surfaceValue evaluate i j)))
    /\ (forall p, cellOf atan2_approx p None = NaN)
    /\ (forall p out, isFinite (getColorValue atan2_approx out p) = false ->
         cellOf atan2_approx p (Some out) = NaN)
    /\ (forall p out, isFinite (getColorValue atan2_approx out p) = true ->
         cellOf atan2_approx p (Some out) = getColorValue atan2_approx out p)
    /\ isFinite NaN = false
    /\ (forall evaluate' d' s' l1' l2' i j,
         generateDomainColoringData compile evaluate' atan2_approx dc l
         = (Normal d', l1') ->
         generateSurface3DData compile evaluate' atan2_approx sc l
         = (Normal s', l2') ->
         (i < n -> j < n ->
          domainValue evaluate' i j = domainValue evaluate i j ->
          cellAt (DomainColoringData.z d') j i = cellAt (DomainColoringData.z d) j i
          /\ cellAt (DomainColoringData.colors d') j i
             = cellAt (DomainColoringData.colors d) j i)
         /\ (i < m -> j < m ->
             surfaceValue evaluate' i j = surfaceValue evaluate i j ->
             cellAt (Surface3DData.z s') j i = cellAt (Surface3DData.z s) j i
             /\ cellAt (Surface3DData.colors s') j i
                = cellAt (Surface3DData.colors s) j i)).
Proof.
  intros Hdb Hdc Hsb Hsc n m domainValue surfaceValue.
  eexists _, _, _, _.
  split; [exact (generateDomainColoringData_run compile evaluate atan2_approx
                   dc f l Hdb Hdc)|].
  split; [exact (generateSurface3DData_run compile evaluate atan2_approx
                   sc g l Hsb Hsc)|].
  cbn [DomainColoringData.z DomainColoringData.colors
       Surface3DData.z Surface3DData.colors].
  do 4 (split; [apply gridOf_rectangular|]).
  split; [|split].
  - intros i j Hi Hj. split; by apply cellAt_gridOf.
  - intros i j Hi Hj. split; by apply cellAt_gridOf.
  - split; [done|]. split; [apply cellOf_not_finite|].
    split; [apply cellOf_finite|]. split; [done|].
    intros evaluate' d' s' l1' l2' i j Hd' Hs'.
    rewrite (generateDomainColoringData_run compile evaluate' atan2_approx
               dc f l Hdb Hdc) in Hd'.
    rewrite (generateSurface3DData_run compile evaluate' atan2_approx
               sc g l Hsb Hsc) in Hs'.
    injection Hd' as <- _. injection Hs' as <- _.
    cbn [DomainColoringData.z DomainColoringData.colors
         Surface3DData.z Surface3DData.colors].
    split; intros Hi Hj Heq; rewrite !cellAt_gridOf by done;
      fold n m in Heq |- *; unfold domainValue, surfaceValue in Heq;
      by rewrite Heq.
Qed.

(** C4. In both grids the cell of row j and column i is the projection of
    the value of f at the point (xMin + i·dx) + i·(yMin + j·dy), with
    dx = (xMax−xMin)/max(resolution−1,1) and dy alike, rows in order; in the
    surface the height and the colour of a cell are two projections of one
    evaluated value, math.js being asked exactly one evaluation per cell, row
    after row. *)
Theorem grid_cells (dc : DomainColoringConfig.t) (sc : Surface3DConfig.t)
  (f g : EvalFunction) (l : list Call) :
  blank (DomainColoringConfig.expression dc) = false ->
  compile (DomainColoringConfig.expression dc) = Some f ->
  blank (Surface3DConfig.expression sc) = false ->
  compile (Surface3DConfig.expression sc) = Some g ->
  let n := DomainColoringConfig.resolution dc in
  let m := Surface3DConfig.resolution sc in
  let point lo hi k steps := (lo + toNumber k * ((hi - lo) / Math.max (toNumber steps - 1) 1))%float in
  let domainPoint i j :=
    {| re := point (DomainColoringConfig.xMin dc) (DomainColoringConfig.xMax dc) i n;
       im := point (DomainColoringConfig.yMin dc) (DomainColoringConfig.yMax dc) j n |} in
  let surfacePoint i j :=
    {| re := point (Surface3DConfig.xMin sc) (Surface3DConfig.xMax sc) i m;
       im := point (Surface3DConfig.yMin sc) (Surface3DConfig.yMax sc) j m |} in
  exists d s l1 l2,
    generateDomainColoringData compile evaluate atan2_approx dc l = (Normal d, l1)
    /\ generateSurface3DData compile evaluate atan2_approx sc l = (Normal s, l2)
    /\ (forall i j out, i < n -> j < n ->
         valueIn evaluate f (scopeZ (domainPoint i j)) = Some out ->
         let v := getColorValue atan2_approx out (DomainColoringConfig.colorBy dc) in
         isFinite v = true ->
         cellAt (DomainColoringData.z d) j i = Some v
         /\ cellAt (DomainColoringData.colors d) j i = Some v)
    /\ (forall i j, i < m -> j < m ->
         let value := valueIn evaluate g (scopeZ (surfacePoint i j)) in
         cellAt (Surface3DData.z s) j i
         = Some (cellOf atan2_approx (Surface3DConfig.heightBy sc) value)
         /\ cellAt (Surface3DData.colors s) j i
            = Some (cellOf atan2_approx (Surface3DConfig.colorBy sc) value))
    /\ (forall i j out, i < m -> j < m ->
         valueIn evaluate g (scopeZ (surfacePoint i j)) = Some out ->
         let h := getColorValue atan2_approx out (Surface3DConfig.heightBy sc) in
         let c := getColorValue atan2_approx out (Surface3DConfig.colorBy sc) in
         (isFinite h = true -> cellAt (Surface3DData.z s) j i = Some h)
         /\ (isFinite c = true -> cellAt (Surface3DData.colors s) j i = Some c))
    /\ l2 = l ++ concat (gridOf (fun i j => {| callee := g;
                                               scope := scopeZ (surfacePoint i j) |}) m)
    /\ length l2 = length l + m * m
    /\ length l1 = length l + n * n.
Proof.
  intros Hdb Hdc Hsb Hsc n m point domainPoint surfacePoint.
  eexists _, _, _, _.
  split; [exact (generateDomainColoringData_run compile evaluate atan2_approx
                   dc f l Hdb Hdc)|].
  split; [exact (generateSurface3DData_run compile evaluate atan2_approx
                   sc g l Hsb Hsc)|].
  cbn [DomainColoringData.z DomainColoringData.colors
       Surface3DData.z Surface3DData.colors].
  fold n m. split; [|split; [|split; [|split; [|split]]]].
  - intros i j out Hi Hj Hout Hv. rewrite !cellAt_gridOf by done.
    change (valueAtCell evaluate f _ _ _ _ i j)
      with (valueIn evaluate f (scopeZ (domainPoint i j))).
    rewrite Hout. by rewrite cellOf_finite.
  - intros i j Hi Hj. by rewrite !cellAt_gridOf.
  - intros i j out Hi Hj Hout. rewrite !cellAt_gridOf by done.
    change (valueAtCell evaluate g _ _ _ _ i j)
      with (valueIn evaluate g (scopeZ (surfacePoint i j))).
    rewrite Hout. split; intros Hfin; by rewrite cellOf_finite.
  - done.
  - rewrite length_app, length_gridCalls. done.
  - rewrite length_app, length_gridCalls. done.
Qed.

End GridTheorems.

(** ** Failures *)

Section FailureProofs.

Context {MathNode EvalFunction : Type}.
Variable parse : text -> option MathNode.
Variable compile : text -> option EvalFunction.
Variable evaluate : EvalFunction -> gmap string JSValue -> option JSValue.
Variable atan2_approx : float -> float -> float.









End FailureProofs.

(** ** The argument *)

Lemma atan2_nan (approx : float -> float -> float) (y x : float) :
  is_nan y || is_nan x = true -> Math.atan2 approx y x = nan.
Proof. unfold Math.atan2. by intros ->. Qed.

Lemma atan2_range (approx : float -> float -> float) (y x : float) :
  (forall y x, inClosedRange (approx y x) = true) ->
  is_nan y || is_nan x = false ->
  inClosedRange (Math.atan2 approx y x) = true.
Proof.
  intros Happrox Hnan. unfold Math.atan2. rewrite Hnan.
  repeat match goal with
         | |- context [if ?b then _ else _] => destruct b
         end.
  all: first [apply Happrox | reflexivity].
Qed.

(** A number below zero is neither NaN, nor zero, nor above zero. *)
Lemma negative_number (x : float) :
  (x <? 0)%float = true ->
  is_nan x = false /\ (0 <? x)%float = false /\ PrimFloat.is_zero x = false.
Proof.
  unfold is_nan, PrimFloat.is_zero.
  rewrite !FloatAxioms.ltb_spec, !FloatAxioms.eqb_spec.
  change (Prim2SF 0) with (S754_zero false).
  change (Prim2SF zero) with (S754_zero false).
  destruct (Prim2SF x) as [s|s| |s m e]; try done.
  - by destruct s.
  - destruct s; [|done]. intros _. repeat split.
    unfold SFeqb, SFcompare. by rewrite Z.compare_refl, Pos.compare_cont_refl.
Qed.

(** C8, as the code has it. The argument projection is atan2(im, re). It is
    NaN when a component is NaN, and otherwise lies in the closed interval
    [−π, π], as the source documents: −π itself is returned when the
    imaginary part is −0 and the real part is negative. *)
Theorem argument_range (approx : float -> float -> float) (p : ComplexPoint) :
  (forall y x, inClosedRange (approx y x) = true) ->
  argument approx p = Math.atan2 approx (im p) (re p)
  /\ getColorValue approx p "argument" = argument approx p
  /\ (is_nan (im p) || is_nan (re p) = true -> argument approx p = NaN)
  /\ (is_nan (im p) || is_nan (re p) = false ->
      inClosedRange (argument approx p) = true)
  /\ (im p = (-0)%float -> (re p <? 0)%float = true ->
      argument approx p = (- Math.PI)%float
      /\ inHalfOpenRange (argument approx p) = false).
Proof.
  intros Happrox. split; [done|]. split; [done|]. split; [|split].
  - apply atan2_nan.
  - by apply atan2_range.
  - intros Him Hre.
    destruct (negative_number (re p) Hre) as (Hn & Hp & Hz).
    assert (Harg : argument approx p = (- Math.PI)%float).
    { unfold argument, Math.atan2, Math.isPosZero, Math.isNegZero.
      rewrite Him, Hn, Hp, Hz. reflexivity. }
    by rewrite Harg.
Qed.

(** C8 fails as stated: at −1 − 0i the argument is −π, outside (−π, π]. *)
Lemma argument_reaches_minus_pi :
  argument quadrantAngle {| re := -1; im := -0 |} = (- Math.PI)%float
  /\ inHalfOpenRange (argument quadrantAngle {| re := -1; im := -0 |}) = false
  /\ getColorValue quadrantAngle {| re := -1; im := -0 |} "argument"
     = (- Math.PI)%float.
Proof. by vm_compute. Qed.

Lemma quadrantAngle_range (y x : float) :
  inClosedRange (quadrantAngle y x) = true.
Proof. unfold quadrantAngle. by repeat destruct (_ <? _)%float. Qed.

Lemma argument_range_witness :
  argument quadrantAngle {| re := -1; im := -0 |}
  = Math.atan2 quadrantAngle (-0) (-1)
  /\ inClosedRange (argument quadrantAngle {| re := 1; im := 1 |}) = true.
Proof.
  pose proof (argument_range quadrantAngle {| re := -1; im := -0 |}
                quadrantAngle_range) as (H1 & _).
  pose proof (argument_range quadrantAngle {| re := 1; im := 1 |}
                quadrantAngle_range) as (_ & _ & _ & H2 & _).
  split; [exact H1|]. apply H2. reflexivity.
Defined.

(** ** The evaluator *)

Section EvaluatorProofs.

Variable elementary : string -> option (ComplexPoint -> ComplexPoint).

(** A tree in which the variable does not occur reduces to the same value
    whatever the variable is bound to. *)
Lemma evaluateNode_unused (x : string) (v1 v2 : JSValue) (n : ExpressionNode) :
  occurs x n = false ->
  evaluateNode elementary {[ x := v1 ]} n
  = evaluateNode elementary {[ x := v2 ]} n.
Proof.
  revert n. fix IH 1. intros [v|name|name|[] a|op a b|f args]; simpl.
  - done.
  - done.
  - intros Hx%String.eqb_neq. by rewrite !lookup_singleton_ne.
  - intros Ha. by rewrite (IH a Ha).
  - intros [Ha Hb]%orb_false_elim. by rewrite (IH a Ha), (IH b Hb).
  - destruct (elementary f); [|done].
    destruct args as [|a [|b args]]; [done| |done]. simpl.
    rewrite orb_false_r. intros Ha. by rewrite (IH a Ha).
Qed.

(** C9. A compiled expression in which its free variable does not occur
    evaluates to the same result at every two bindings. *)
Theorem evaluate_ignores_unused_binding (n : ExpressionNode) (x : string)
  (b1 b2 : ComplexPoint) (l : list (@Call ExpressionNode)) :
  occurs x n = false ->
  let compiled := {| node := n; compiled := n; variable := x |} in
  (evaluateAt (evaluateTree elementary) compiled b1 l).1
  = (evaluateAt (evaluateTree elementary) compiled b2 l).1.
Proof.
  intros Hx compiled. unfold evaluateAt, compiled, evaluateTree. js_unfold.
  rewrite (evaluateNode_unused x (toMathComplex b1) (toMathComplex b2) n Hx).
  by destruct (evaluateNode _ _ n).
Qed.

End EvaluatorProofs.

(** ** The theorems at work on the small instance *)

(** White space beyond ASCII is trimmed: a transform of wide spaces is no
    transform, and its integrand is the constant 1. *)
Lemma wide_spaces_are_blank :
  blank wideSpaces = true
  /\ integrandText wideSpaces = "1"
  /\ transformOf compileText wideSpaces = Some None
  /\ (evaluateSingleContour compileText evaluateText "t" wideSpaces 0 1 3 []).1
     = Normal [{| re := 0; im := 0 |}; {| re := 0.5; im := 0 |};
               {| re := 1; im := 0 |}]
  /\ (generateContourPoints compileText evaluateText
        [withTransform diagonal wideSpaces; withTransform spacedDiagonal "z"]
        []).1
     = Normal [entryOf compileText evaluateText diagonal;
               entryOf compileText evaluateText (withTransform diagonal "z")]
  /\ ContourData.expression (entryOf compileText evaluateText spacedDiagonal)
     = "t+i*t"
  /\ (generateContourPoints compileText evaluateText
        [{| ContourEntry.id := "c2";
            ContourEntry.expression := wideSpaces;
            ContourEntry.transformFunction := "";
            ContourEntry.color := "#00d4ff";
            ContourEntry.enabled := true;
            ContourEntry.tMin := 0;
            ContourEntry.tMax := 1;
            ContourEntry.tSteps := 3;
            ContourEntry.animationSpeed := 5 |}] []).1
     = Normal [].
Proof. by vm_compute. Qed.




Lemma grid_shape_and_marking_witness :
  exists d s l1 l2,
    generateDomainColoringData compileText evaluateText quadrantAngle poleGrid []
    = (Normal d, l1)
    /\ generateSurface3DData compileText evaluateText quadrantAngle poleSurface []
       = (Normal s, l2)
    /\ rectangular 3 (DomainColoringData.z d)
    /\ rectangular 3 (Surface3DData.colors s)
    /\ cellAt (DomainColoringData.z d) 1 1 = Some NaN
    /\ cellAt (DomainColoringData.z d) 1 2 = Some 1%float.
Proof.
  destruct (grid_shape_and_marking compileText evaluateText quadrantAngle
              poleGrid poleSurface
              (BinaryOp Divide (NumberLiteral 1) (VariableNode "z"))
              (BinaryOp Divide (NumberLiteral 1) (VariableNode "z")) []
              eq_refl eq_refl eq_refl eq_refl)
    as (d & s & l1 & l2 & Hd & Hs & Hz & _ & _ & Hc & Hcell & _).
  exists d, s, l1, l2. repeat split; try done.
  - apply Hz.
  - apply Hz.
  - apply Hc.
  - apply Hc.
  - destruct (Hcell 1 1) as [-> _]; [simpl; lia..|]. by vm_compute.
  - destruct (Hcell 2 1) as [-> _]; [simpl; lia..|]. by vm_compute.
Defined.

Lemma grid_cells_witness :
  exists d s l1 l2,
    generateDomainColoringData compileText evaluateText quadrantAngle poleGrid []
    = (Normal d, l1)
    /\ generateSurface3DData compileText evaluateText quadrantAngle poleSurface []
       = (Normal s, l2)
    /\ length l2 = 9
    /\ cellAt (Surface3DData.z s) 0 1 = Some 1%float
    /\ cellAt (Surface3DData.colors s) 0 1 = Some (Math.PI / 2)%float.
Proof.
  destruct (grid_cells compileText evaluateText quadrantAngle
              poleGrid poleSurface
              (BinaryOp Divide (NumberLiteral 1) (VariableNode "z"))
              (BinaryOp Divide (NumberLiteral 1) (VariableNode "z")) []
              eq_refl eq_refl eq_refl eq_refl)
    as (d & s & l1 & l2 & Hd & Hs & _ & Hcell & _ & _ & Hlen & _).
  exists d, s, l1, l2. repeat split; try done.
  - destruct (Hcell 1 0) as [-> _]; [simpl; lia..|]. by vm_compute.
  - destruct (Hcell 1 0) as [_ ->]; [simpl; lia..|]. by vm_compute.
Defined.



Lemma evaluate_ignores_unused_binding_witness :
  let compiled :=
    {| node := BinaryOp Times (Constant "i") (Constant "pi");
       compiled := BinaryOp Times (Constant "i") (Constant "pi");
       variable := "z" |} in
  (evaluateAt evaluateText compiled {| re := 1; im := 2 |} []).1
  = (evaluateAt evaluateText compiled {| re := 3; im := 4 |} []).1.
Proof.
  exact (evaluate_ignores_unused_binding basicFunctions
           (BinaryOp Times (Constant "i") (Constant "pi")) "z"
           {| re := 1; im := 2 |} {| re := 3; im := 4 |} [] eq_refl).
Defined.

(** * Further properties of the engine *)

(** ** Texts *)

Lemma strictEquals_eq (a b : text) : strictEquals a b = true <-> a = b.
Proof.
  revert b. induction a as [|x a IH]; intros [|y b]; simpl; try done.
  rewrite andb_true_iff, N.eqb_eq, IH. split; [by intros [-> ->]|].
  by intros [= -> ->].
Qed.

Lemma strictEquals_empty (a : text) : strictEquals a "" = true <-> a = [].
Proof. apply strictEquals_eq. Qed.

Lemma trimStart_empty_iff (s : text) :
  trimStart s = [] <-> Forall (fun c => isWhiteSpace c = true) s.
Proof.
  induction s as [|c s IH]; simpl; [done|].
  destruct (isWhiteSpace c) eqn:Hc.
  - rewrite IH. split; [by constructor|by inversion 1].
  - split; [done|]. inversion 1; congruence.
Qed.

Lemma trimEnd_empty_iff (s : text) :
  trimEnd s = [] <-> Forall (fun c => isWhiteSpace c = true) s.
Proof.
  induction s as [|c s IH]; simpl; [done|].
  destruct (trimEnd s) as [|c' s'] eqn:Hs.
  - destruct (isWhiteSpace c) eqn:Hc.
    + split; [|done]. intros _. constructor; [done|]. by apply IH.
    + split; [done|]. inversion 1; congruence.
  - split; [done|]. inversion 1 as [|? ? _ Hall]. by apply IH in Hall.
Qed.

Lemma trimStart_suffix (s : text) :
  exists prefix,
    s = prefix ++ trimStart s
    /\ Forall (fun c => isWhiteSpace c = true) prefix.
Proof.
  induction s as [|c s (prefix & Hs & Hp)]; simpl; [by exists []|].
  destruct (isWhiteSpace c) eqn:Hc.
  - exists (c :: prefix). simpl. rewrite <- Hs. split; [done|by constructor].
  - by exists [].
Qed.

(** A text is blank exactly when all its code units are white space. *)
Lemma blank_iff (s : text) :
  blank s = true <-> Forall (fun c => isWhiteSpace c = true) s.
Proof.
  unfold blank, trim. rewrite orb_true_iff, !strictEquals_empty.
  rewrite trimEnd_empty_iff. split.
  - intros [->|Hall]; [constructor|].
    destruct (trimStart_suffix s) as (prefix & Hs & Hp).
    rewrite Hs. by apply Forall_app.
  - intros Hall. right.
    apply trimStart_empty_iff in Hall. by rewrite Hall.
Qed.

Lemma blank_empty_trim (s : text) :
  strictEquals (trim s) "" = blank s.
Proof.
  unfold blank. destruct (strictEquals s "") eqn:Hs; [|done].
  apply strictEquals_empty in Hs. by subst.
Qed.

(** ** Contours *)

Lemma arrayMap_run {L A B} (f : A -> js L B) (g : A -> B) :
  (forall a l, exists l', f a l = (Normal (g a), l')) ->
  forall (xs : list A) l, exists l', arrayMap f xs l = (Normal (g <$> xs), l').
Proof.
  intros Hf xs. induction xs as [|a xs IH]; intros l; simpl.
  - by exists l.
  - js_unfold. destruct (Hf a l) as [l1 ->].
    destruct (IH l1) as [l2 ->]. by exists l2.
Qed.

Section ContourCallers.

Context {EvalFunction : Type}.
Variable compile : text -> option EvalFunction.
Variable evaluate : EvalFunction -> gmap string JSValue -> option JSValue.

(** Sampling always ends normally, with the specified points. *)
Lemma evaluateSingleContour_result (expression transformFunction : text)
  (tMin tMax : float) (tSteps : nat) (l : list (@Call EvalFunction)) :
  exists l',
    evaluateSingleContour compile evaluate expression transformFunction
      tMin tMax tSteps l
    = (Normal (contourPointsOf compile evaluate expression transformFunction
                 tMin tMax tSteps), l').
Proof.
  unfold contourPointsOf.
  destruct (blank expression) eqn:Hb.
  { unfold evaluateSingleContour. rewrite blank_spec, Hb. by eexists. }
  destruct (compile expression) as [gamma|] eqn:Hc; cycle 1.
  { unfold evaluateSingleContour. rewrite blank_spec, Hb. js_unfold.
    rewrite Hc. by eexists. }
  destruct (transformOf compile transformFunction) as [f|] eqn:Hf.
  - eexists.
    apply (evaluateSingleContour_run compile evaluate expression
             transformFunction tMin tMax tSteps gamma f l Hb Hc Hf).
  - unfold evaluateSingleContour. rewrite blank_spec, Hb, hasTransform_spec.
    js_unfold. rewrite Hc. unfold transformOf in Hf.
    destruct (blank transformFunction); [done|]. simpl.
    destruct (compile transformFunction); [done|]. by eexists.
Qed.

Lemma contourData_run (contour : ContourEntry.t) (l : list (@Call EvalFunction)) :
  exists l',
    contourData compile evaluate contour l
    = (Normal (entryOf compile evaluate contour), l').
Proof.
  unfold contourData, entryOf, labelOf. js_unfold.
  destruct (evaluateSingleContour_result (ContourEntry.expression contour)
              (ContourEntry.transformFunction contour) (ContourEntry.tMin contour)
              (ContourEntry.tMax contour) (ContourEntry.tSteps contour) l)
    as [l' ->].
  exists l'. unfold truthy. rewrite blank_empty_trim.
  by destruct (blank (ContourEntry.transformFunction contour)).
Qed.

Lemma generateContourPoints_run (contours : list ContourEntry.t)
  (l : list (@Call EvalFunction)) :
  exists l',
    generateContourPoints compile evaluate contours l
    = (Normal (entryOf compile evaluate <$> filter (fun c => drawn c = true) contours),
       l').
Proof.
  unfold generateContourPoints.
  rewrite (list_filter_iff _ (fun c => drawn c = true)); cycle 1.
  { intros c. unfold drawn. by rewrite blank_empty_trim. }
  apply arrayMap_run, contourData_run.
Qed.

(** X1. Plotting a list of contours never throws, and gives one entry for
    each contour that is enabled and whose curve text is not blank, in the
    order of the input, with its id, colour, interval and speed; so there are
    at most as many entries as contours, and none when no contour is drawn. An
    entry is labelled [f(γ)] exactly when its transform is not blank, which is
    exactly when its points are the transformed ones. *)
Theorem generateContourPoints_entries (contours : list ContourEntry.t)
  (l : list (@Call EvalFunction)) :
  exists data l',
    generateContourPoints compile evaluate contours l = (Normal data, l')
    /\ length data <= length contours
    /\ ContourData.id <$> data
       = ContourEntry.id <$> filter (fun c => drawn c = true) contours
    /\ Forall2 (fun c d =>
         ContourData.color d = ContourEntry.color c
         /\ ContourData.tMin d = ContourEntry.tMin c
         /\ ContourData.tMax d = ContourEntry.tMax c
         /\ ContourData.animationSpeed d = ContourEntry.animationSpeed c
         /\ ContourData.points d
            = contourPointsOf compile evaluate (ContourEntry.expression c)
                (ContourEntry.transformFunction c) (ContourEntry.tMin c)
                (ContourEntry.tMax c) (ContourEntry.tSteps c)
         /\ (blank (ContourEntry.transformFunction c) = true ->
             ContourData.expression d = ContourEntry.expression c
             /\ ContourData.points d
                = contourPointsOf compile evaluate (ContourEntry.expression c)
                    "" (ContourEntry.tMin c) (ContourEntry.tMax c)
                    (ContourEntry.tSteps c))
         /\ (blank (ContourEntry.transformFunction c) = false ->
             ContourData.expression d
             = ContourEntry.transformFunction c ++ ("(" : text)
               ++ ContourEntry.expression c ++ (")" : text)))
       (filter (fun c => drawn c = true) contours) data
    /\ (Forall (fun c => drawn c = false) contours -> data = []).
Proof.
  destruct (generateContourPoints_run contours l) as [l' Hrun].
  eexists _, l'. split; [exact Hrun|]. split; [|split; [|split]].
  - rewrite length_fmap. apply length_filter.
  - rewrite <- list_fmap_compose. done.
  - apply Forall2_fmap_r, Forall_Forall2_diag, Forall_forall.
    intros c _. simpl. do 5 (split; [done|]). unfold labelOf. split.
    + intros Hb. rewrite Hb. split; [done|].
      unfold contourPointsOf, transformOf. rewrite Hb.
      by destruct (blank (ContourEntry.expression c)).
    + by intros ->.
  - intros Hall. clear Hrun. induction Hall as [|c cs Hc _ IH]; [done|].
    rewrite filter_cons, decide_False by by rewrite Hc. exact IH.
Qed.

End ContourCallers.

(** ** Guards *)

Section Guards.

Context {MathNode EvalFunction : Type}.
Variable parse : text -> option MathNode.
Variable compile : text -> option EvalFunction.
Variable evaluate : EvalFunction -> gmap string JSValue -> option JSValue.
Variable atan2_approx : float -> float -> float.

(** X2. A text is blank exactly when it consists of white space only (the
    empty text included). On a blank expression every operation answers at
    once, empty or null, without asking math.js for any evaluation, whatever
    math.js would have made of the text. *)
Theorem blank_expression_guard (l : list (@Call EvalFunction)) :
  (forall s, blank s = true
             <-> Forall (fun c => isWhiteSpace c = true) s)
  /\ (forall expression transformFunction tMin tMax tSteps,
        blank expression = true ->
        evaluateSingleContour compile evaluate expression transformFunction
          tMin tMax tSteps l = (Normal [], l))
  /\ (forall contour,
        blank (ContourEntry.expression contour) = true ->
        computeContourIntegral compile evaluate contour l = (Normal None, l))
  /\ (forall config,
        blank (DomainColoringConfig.expression config) = true ->
        generateDomainColoringData compile evaluate atan2_approx config l
        = (Normal {| DomainColoringData.z := []; DomainColoringData.colors := [] |},
           l))
  /\ (forall config,
        blank (Surface3DConfig.expression config) = true ->
        generateSurface3DData compile evaluate atan2_approx config l
        = (Normal {| Surface3DData.x := []; Surface3DData.y := [];
                     Surface3DData.z := []; Surface3DData.colors := [] |}, l))
  /\ (forall expr variable,
        blank expr = true ->
        parseExpression parse expr variable l = (Normal None, l)
        /\ parseAndCompile parse compile expr variable l = (Normal None, l)).
Proof.
  split; [exact blank_iff|]. split; [|split; [|split; [|split]]].
  - intros expression transformFunction tMin tMax tSteps Hb.
    unfold evaluateSingleContour. by rewrite blank_spec, Hb.
  - intros contour Hb. unfold computeContourIntegral. by rewrite blank_spec, Hb.
  - intros config Hb. unfold generateDomainColoringData.
    by rewrite blank_spec, Hb.
  - intros config Hb. unfold generateSurface3DData. by rewrite blank_spec, Hb.
  - intros expr variable Hb. unfold parseExpression, parseAndCompile.
    by rewrite blank_spec, Hb.
Qed.

(** X3. With no sample to take (tSteps = 0, resolution = 0) the loops do not
    run: a contour has no point and the integral is null, the grids and the
    axes are empty, and math.js is asked for no evaluation, whatever the
    expression. *)
Theorem no_sample_no_evaluation (l : list (@Call EvalFunction)) :
  (forall expression transformFunction tMin tMax,
     evaluateSingleContour compile evaluate expression transformFunction
       tMin tMax 0 l = (Normal [], l))
  /\ (forall contour,
        ContourEntry.tSteps contour = 0 ->
        computeContourIntegral compile evaluate contour l = (Normal None, l))
  /\ (forall config,
        DomainColoringConfig.resolution config = 0 ->
        generateDomainColoringData compile evaluate atan2_approx config l
        = (Normal {| DomainColoringData.z := []; DomainColoringData.colors := [] |},
           l))
  /\ (forall config,
        Surface3DConfig.resolution config = 0 ->
        generateSurface3DData compile evaluate atan2_approx config l
        = (Normal {| Surface3DData.x := []; Surface3DData.y := [];
                     Surface3DData.z := []; Surface3DData.colors := [] |}, l)).
Proof.
  split; [|split; [|split]].
  - intros expression transformFunction tMin tMax.
    unfold evaluateSingleContour. destruct (_ || _); [done|]. js_unfold.
    destruct (compile expression); [|done].
    destruct (_ && _); [|done].
    by destruct (compile transformFunction).
  - intros contour H0. unfold computeContourIntegral. rewrite H0.
    destruct (_ || _); [done|]. js_unfold.
    destruct (compile (ContourEntry.expression contour)); [|done].
    by destruct (compile _).
  - intros config H0. unfold generateDomainColoringData. rewrite H0.
    destruct (_ || _); [done|]. js_unfold.
    by destruct (compile (DomainColoringConfig.expression config)).
  - intros config H0. unfold generateSurface3DData. rewrite H0.
    destruct (_ || _); [done|]. js_unfold.
    by destruct (compile (Surface3DConfig.expression config)).
Qed.

End Guards.

(** ** Evaluation at a point *)

Section PointEvaluation.

Context {MathNode EvalFunction : Type}.
Variable parse : text -> option MathNode.
Variable compile : text -> option EvalFunction.
Variable evaluate : EvalFunction -> gmap string JSValue -> option JSValue.

Lemma evaluateAt_run (pe : ParsedExpression MathNode EvalFunction)
  (p : ComplexPoint) (l : list (@Call EvalFunction)) :
  let scope : gmap string JSValue := {[ variable pe := toMathComplex p ]} in
  evaluateAt evaluate pe p l
  = (Normal (valueIn evaluate (compiled pe) scope),
     l ++ [{| callee := compiled pe; scope := scope |}]).
Proof.
  destruct pe as [n c x]. unfold evaluateAt, valueIn. js_unfold. simpl.
  by destruct (evaluate c _) as [[?|[?|] [?|]|]|].
Qed.

Lemma evaluateExpressionAt_run (expr : text) (x : string) (p : ComplexPoint)
  (c : EvalFunction) (l : list (@Call EvalFunction)) :
  compile expr = Some c ->
  let scope : gmap string JSValue := {[ x := toMathComplex p ]} in
  evaluateExpressionAt compile evaluate expr x p l
  = (Normal (valueIn evaluate c scope),
     l ++ [{| callee := c; scope := scope |}]).
Proof.
  intros Hc. unfold evaluateExpressionAt, valueIn. js_unfold. rewrite Hc.
  by destruct (evaluate c _) as [[?|[?|] [?|]|]|].
Qed.

Lemma evaluateAtT_run (expr : text) (t : float)
  (c : EvalFunction) (l : list (@Call EvalFunction)) :
  compile expr = Some c ->
  let scope : gmap string JSValue := {[ "t" := JSNumber t ]} in
  evaluateAtT compile evaluate expr t l
  = (Normal (valueIn evaluate c scope),
     l ++ [{| callee := c; scope := scope |}]).
Proof.
  intros Hc. unfold evaluateAtT, valueIn. js_unfold. rewrite Hc.
  by destruct (evaluate c _) as [[?|[?|] [?|]|]|].
Qed.

(** X5. Evaluating an expression text at a point, or at a real parameter,
    never throws: the answer is null exactly when the text does not compile
    or the one evaluation asked of math.js fails, and otherwise the value
    found, in a scope that binds the variable alone. Parsing and compiling a
    text first and evaluating the result gives the same answer as evaluating
    the text directly. *)
Theorem point_evaluation (expr : text) (x : string) (p : ComplexPoint)
  (t : float)
  (l : list (@Call EvalFunction)) :
  (exists r l',
     evaluateExpressionAt compile evaluate expr x p l = (Normal r, l')
     /\ (r = None <->
         compile expr = None
         \/ exists c, compile expr = Some c
              /\ valueIn evaluate c {[ x := toMathComplex p ]} = None)
     /\ (forall c, compile expr = Some c ->
           r = valueIn evaluate c {[ x := toMathComplex p ]}
           /\ l' = l ++ [{| callee := c; scope := {[ x := toMathComplex p ]} |}]))
  /\ (exists r l',
        evaluateAtT compile evaluate expr t l = (Normal r, l')
        /\ (r = None <->
            compile expr = None
            \/ exists c, compile expr = Some c
                 /\ valueIn evaluate c {[ "t" := JSNumber t ]} = None)
        /\ (forall c, compile expr = Some c ->
              r = valueIn evaluate c {[ "t" := JSNumber t ]}
              /\ l' = l ++ [{| callee := c; scope := {[ "t" := JSNumber t ]} |}]))
  /\ (forall pe,
        parseAndCompile parse compile expr x l = (Normal (Some pe), l) ->
        evaluateAt evaluate pe p l
        = evaluateExpressionAt compile evaluate expr x p l).
Proof.
  split; [|split].
  - destruct (compile expr) as [c|] eqn:Hc.
    + eexists _, _. split; [by apply evaluateExpressionAt_run|].
      split; [|by intros ? [= <-]]. split.
      * intros Hr. right. by exists c.
      * by intros [?|(c' & [= <-] & ?)].
    + exists None, l. split.
      { unfold evaluateExpressionAt. js_unfold. by rewrite Hc. }
      split; [|done]. split; [by left|done].
  - destruct (compile expr) as [c|] eqn:Hc.
    + eexists _, _. split; [by apply evaluateAtT_run|].
      split; [|by intros ? [= <-]]. split.
      * intros Hr. right. by exists c.
      * by intros [?|(c' & [= <-] & ?)].
    + exists None, l. split.
      { unfold evaluateAtT. js_unfold. by rewrite Hc. }
      split; [|done]. split; [by left|done].
  - intros pe. unfold parseAndCompile.
    destruct (_ || _); [by js_unfold|]. js_unfold.
    destruct (parse expr) as [n|]; [|done].
    destruct (compile expr) as [c|] eqn:Hc; [|done].
    intros [= <-]. rewrite evaluateAt_run. simpl.
    by rewrite (evaluateExpressionAt_run expr x p c l Hc).
Qed.

End PointEvaluation.

(** ** Grids and axes *)

Section GridExtras.

Context {EvalFunction : Type}.
Variable compile : text -> option EvalFunction.
Variable evaluate : EvalFunction -> gmap string JSValue -> option JSValue.
Variable atan2_approx : float -> float -> float.

(** X7. Domain coloring always returns two equal grids. The surface always
    returns axes and grids of one size, which is [resolution] when the
    expression compiles (and is not blank) and 0 otherwise; its axes then hold
    the coordinates min + k·d of the columns and rows; and when the height
    and the colour are the same projection its two grids are equal. *)
Theorem grids_agree (dc : DomainColoringConfig.t) (sc : Surface3DConfig.t)
  (l : list (@Call EvalFunction)) :
  (exists d l',
     generateDomainColoringData compile evaluate atan2_approx dc l = (Normal d, l')
     /\ DomainColoringData.z d = DomainColoringData.colors d)
  /\ (exists s l',
        generateSurface3DData compile evaluate atan2_approx sc l = (Normal s, l')
        /\ length (Surface3DData.x s) = length (Surface3DData.y s)
        /\ length (Surface3DData.y s) = length (Surface3DData.z s)
        /\ length (Surface3DData.z s) = length (Surface3DData.colors s)
        /\ (Surface3DConfig.heightBy sc = Surface3DConfig.colorBy sc ->
            Surface3DData.z s = Surface3DData.colors s)
        /\ (forall f,
              blank (Surface3DConfig.expression sc) = false ->
              compile (Surface3DConfig.expression sc) = Some f ->
              let n := Surface3DConfig.resolution sc in
              Surface3DData.x s
              = axis (Surface3DConfig.xMin sc)
                  (spacing (Surface3DConfig.xMin sc) (Surface3DConfig.xMax sc) n) n
              /\ Surface3DData.y s
                 = axis (Surface3DConfig.yMin sc)
                     (spacing (Surface3DConfig.yMin sc) (Surface3DConfig.yMax sc) n) n
              /\ length (Surface3DData.x s) = n)).
Proof.
  split.
  - destruct (blank (DomainColoringConfig.expression dc)) eqn:Hb.
    { eexists _, _. split; [unfold generateDomainColoringData;
                              by rewrite blank_spec, Hb|reflexivity]. }
    destruct (compile (DomainColoringConfig.expression dc)) as [f|] eqn:Hc.
    + eexists _, _. split; [by apply generateDomainColoringData_run|done].
    + eexists _, _. split; [unfold generateDomainColoringData;
                              rewrite blank_spec, Hb; js_unfold; by rewrite Hc|].
      reflexivity.
  - destruct (blank (Surface3DConfig.expression sc)) eqn:Hb.
    { eexists _, _. split.
      { unfold generateSurface3DData. by rewrite blank_spec, Hb. }
      by repeat split. }
    destruct (compile (Surface3DConfig.expression sc)) as [f|] eqn:Hc.
    + eexists _, _. split; [by apply generateSurface3DData_run|].
      cbn [Surface3DData.x Surface3DData.y Surface3DData.z Surface3DData.colors].
      unfold axis, gridOf. rewrite !length_fmap, !length_seq.
      do 3 (split; [done|]). split; [by intros ->|].
      by intros f' _ [= <-].
    + eexists _, _. split.
      { unfold generateSurface3DData. rewrite blank_spec, Hb. js_unfold.
        by rewrite Hc. }
      by repeat split.
Qed.

End GridExtras.

(** ** The samples of the integral *)

Lemma omap_sublist {A B C} (f : A -> option B) (g : A -> option C)
  (h : B -> C) (l : list A) :
  (forall a b, f a = Some b -> g a = Some (h b)) ->
  h <$> omap f l `sublist_of` omap g l.
Proof.
  intros Hfg. induction l as [|a l IH]; simpl; [constructor|].
  destruct (f a) as [b|] eqn:Hf.
  - rewrite (Hfg a b Hf). simpl. by constructor.
  - destruct (g a); [by constructor|done].
Qed.

Lemma omap_Some_fmap {A B} (f : A -> B) (l : list A) :
  omap (fun a => Some (f a)) l = f <$> l.
Proof. induction l as [|a l IH]; [done|]. simpl. by f_equal. Qed.

Section IntegralExtras.

Context {EvalFunction : Type}.
Variable compile : text -> option EvalFunction.
Variable evaluate : EvalFunction -> gmap string JSValue -> option JSValue.

(** X8. In a result of the integral engine every curve point and every
    integrand vector is finite; the parameters are some of the sample
    parameters tMin + step·dt, in increasing step order; and the curve points
    are some of the points the contour sampler gives for the same curve
    without a transform, in the same order. *)
Theorem integral_samples (contour : ContourEntry.t)
  (l l' : list (@Call EvalFunction)) (data : ContourIntegralData.t) :
  computeContourIntegral compile evaluate contour l = (Normal (Some data), l') ->
  let tMin := ContourEntry.tMin contour in
  let tMax := ContourEntry.tMax contour in
  let tSteps := ContourEntry.tSteps contour in
  Forall (fun p => finite p = true) (ContourIntegralData.contourPoints data)
  /\ Forall (fun v => finite v = true) (ContourIntegralData.integrandVectors data)
  /\ ContourIntegralData.tValues data
     `sublist_of` (sampleAt tMin (spacing tMin tMax tSteps) <$> seq 0 tSteps)
  /\ ContourIntegralData.contourPoints data
     `sublist_of` contourPointsOf compile evaluate
                    (ContourEntry.expression contour) "" tMin tMax tSteps
  /\ ContourIntegralData.id data = ContourEntry.id contour
  /\ ContourIntegralData.color data = ContourEntry.color contour
  /\ ContourIntegralData.expression data = ContourEntry.expression contour.
Proof.
  intros Hrun tMin tMax tSteps.
  destruct (computeContourIntegral_run compile evaluate contour l) as [l2 Hrun'].
  rewrite Hrun in Hrun'. injection Hrun' as Hres _. symmetry in Hres.
  unfold integralResult in Hres.
  destruct (blank (ContourEntry.expression contour)) eqn:Hb; [done|].
  destruct (compile (ContourEntry.expression contour)) as [gamma|] eqn:Hg;
    [|done].
  destruct (compile (integrandText _)) as [f|]; [|done].
  unfold integralOf in Hres. fold tMin tMax tSteps in Hres.
  set (dt := spacing tMin tMax tSteps) in *.
  set (sample := fun step =>
         integralSample evaluate gamma f (dt * 0.01)%float (sampleAt tMin dt step))
    in *.
  destruct (omap sample (seq 0 tSteps)) as [|s0 ss] eqn:Hs; [done|].
  rewrite <- Hs in Hres. injection Hres as <-.
  cbn [ContourIntegralData.contourPoints ContourIntegralData.integrandVectors
       ContourIntegralData.tValues ContourIntegralData.id
       ContourIntegralData.color ContourIntegralData.expression].
  assert (Hsample : forall step s, sample step = Some s ->
            finite (curvePoint s) = true /\ finite (integrand s) = true
            /\ parameter s = sampleAt tMin dt step
            /\ contourSample evaluate gamma None (sampleAt tMin dt step)
               = Some (curvePoint s)).
  { intros step s Hstep.
    destruct (integralSample_Some evaluate _ _ _ _ _ Hstep)
      as (g & g' & fz & Hgv & Hgf & _ & _ & _ & Hv & ->).
    simpl. repeat split; try done.
    unfold contourSample. rewrite Hgv. simpl. by rewrite Hgf. }
  split; [|split; [|split; [|split]]].
  - apply Forall_fmap, Forall_forall. intros s Hin.
    apply list_elem_of_omap in Hin as (step & _ & Hstep).
    by apply Hsample in Hstep as (? & _).
  - apply Forall_fmap, Forall_forall. intros s Hin.
    apply list_elem_of_omap in Hin as (step & _ & Hstep).
    by apply Hsample in Hstep as (_ & ? & _).
  - rewrite <- (omap_Some_fmap (sampleAt tMin dt)).
    apply omap_sublist. intros step s Hstep.
    by apply Hsample in Hstep as (_ & _ & -> & _).
  - unfold contourPointsOf. rewrite Hb, Hg.
    change (transformOf compile "") with (Some (@None EvalFunction)).
    apply omap_sublist. intros step s Hstep.
    by apply Hsample in Hstep as (_ & _ & _ & ?).
  - done.
Qed.

End IntegralExtras.

Lemma integral_samples_witness :
  exists data l',
    computeContourIntegral compileText evaluateText spacedDiagonal []
    = (Normal (Some data), l')
    /\ Forall (fun p => finite p = true) (ContourIntegralData.contourPoints data)
    /\ ContourIntegralData.contourPoints data
       `sublist_of` contourPointsOf compileText evaluateText "t+i*t" "" 0 1 3.
Proof.
  destruct (computeContourIntegral_run compileText evaluateText spacedDiagonal [])
    as [l' Hrun].
  destruct (integralResult compileText evaluateText spacedDiagonal)
    as [data|] eqn:Hres; [|vm_compute in Hres; discriminate Hres].
  exists data, l'. split; [exact Hrun|].
  destruct (integral_samples compileText evaluateText spacedDiagonal [] l' data
              Hrun) as (Hfin & _ & _ & Hsub & _).
  by split.
Defined.

(** ** Numbers *)

Lemma SFcompare_antisym (x y : spec_float) :
  SFcompare y x = CompOpp <$> SFcompare x y.
Proof.
  destruct x as [sx|sx| |sx mx ex], y as [sy|sy| |sy my ey]; simpl; try done.
  all: try by destruct sx, sy.
  all: try by destruct sx.
  all: try by destruct sy.
  f_equal. destruct sx, sy; try done.
  all: rewrite (Z.compare_antisym ex ey); destruct (ex ?= ey)%Z; simpl; try done.
  all: assert (Hm : Pos.compare_cont Eq my mx
                    = CompOpp (Pos.compare_cont Eq mx my))
         by (symmetry; apply (Pos.compare_cont_antisym mx my Eq)).
  all: rewrite Hm; by destruct (Pos.compare_cont Eq mx my).
Qed.

(** Of two numbers that are not NaN, one is below the other or they are
    equal. *)
Lemma leb_of_not_ltb (a b : float) :
  is_nan a = false -> is_nan b = false ->
  (a <? b)%float = false -> (b <=? a)%float = true.
Proof.
  unfold is_nan.
  rewrite FloatAxioms.ltb_spec, FloatAxioms.leb_spec, !FloatAxioms.eqb_spec.
  unfold SFltb, SFleb, SFeqb.
  rewrite (SFcompare_antisym (Prim2SF a) (Prim2SF b)).
  destruct (Prim2SF a) as [sx|sx| |sx mx ex] eqn:Ha;
    destruct (Prim2SF b) as [sy|sy| |sy my ey] eqn:Hb; try done.
  all: intros _ _; destruct (SFcompare _ _) as [[]|] eqn:E; simpl; try done.
  all: simpl in E; by repeat case_match.
Qed.

Lemma leb_of_ltb (a b : float) :
  (a <? b)%float = true -> (a <=? b)%float = true.
Proof.
  rewrite FloatAxioms.ltb_spec, FloatAxioms.leb_spec. unfold SFltb, SFleb.
  by destruct (SFcompare _ _) as [[]|].
Qed.

Lemma not_zero_of_one_leb (a : float) :
  (1 <=? a)%float = true -> (a =? 0)%float = false.
Proof.
  rewrite FloatAxioms.leb_spec, FloatAxioms.eqb_spec.
  change (Prim2SF 1) with (S754_finite false 4503599627370496 (-52)).
  change (Prim2SF 0) with (S754_zero false).
  by destruct (Prim2SF a) as [s|[]| |[] m e].
Qed.

(** X9. The divisor [Math.max(steps − 1, 1)] of every spacing is NaN or at
    least 1, so it is never zero: no spacing is computed by a division by
    zero. For no sample and for one sample the divisor is 1. *)
Theorem spacing_divisor (a lo hi : float) :
  is_nan (Math.max a 1) || (1 <=? Math.max a 1)%float = true
  /\ (Math.max a 1 =? 0)%float = false
  /\ (is_nan a = false -> is_nan (Math.max a 1) = false)
  /\ spacing lo hi 0 = ((hi - lo) / 1)%float
  /\ spacing lo hi 1 = ((hi - lo) / 1)%float
  /\ spacing lo hi 2 = ((hi - lo) / 1)%float
  /\ spacing lo hi 3 = ((hi - lo) / 2)%float.
Proof.
  assert (Hcases : is_nan (Math.max a 1) = is_nan a
                   /\ (is_nan a = false -> (1 <=? Math.max a 1)%float = true)).
  { unfold Math.max. change (is_nan 1) with false. rewrite orb_false_r.
    destruct (is_nan a) eqn:Hn; [done|]. split.
    - destruct (a <? 1)%float; [done|]. destruct (1 <? a)%float; [done|].
      by destruct (get_sign a).
    - intros _. destruct (a <? 1)%float eqn:H1; [done|].
      destruct (1 <? a)%float eqn:H2; [by apply leb_of_ltb|].
      destruct (get_sign a); [done|]. by apply leb_of_not_ltb. }
  destruct Hcases as [Hnan Hle]. rewrite Hnan. repeat split; try done.
  - destruct (is_nan a) eqn:Hn; [done|]. by apply Hle.
  - destruct (is_nan a) eqn:Hn.
    + assert (Hmax : Math.max a 1 = nan).
      { unfold Math.max. by rewrite Hn. }
      by rewrite Hmax.
    + by apply not_zero_of_one_leb, Hle.
Qed.

Lemma SFmul_comm (x y : spec_float) :
  SFmul prec emax x y = SFmul prec emax y x.
Proof.
  destruct x as [sx|sx| |sx mx ex], y as [sy|sy| |sy my ey]; simpl; try done.
  all: rewrite ?(xorb_comm sx sy); try done.
  by rewrite (Pos.mul_comm mx my), (Z.add_comm ex ey).
Qed.

Lemma SFadd_comm (x y : spec_float) :
  SFadd prec emax x y = SFadd prec emax y x.
Proof.
  destruct x as [sx|sx| |sx mx ex], y as [sy|sy| |sy my ey]; simpl; try done.
  all: try by destruct sx, sy.
  by rewrite (Z.min_comm ex ey), Z.add_comm.
Qed.

Lemma float_mul_comm (x y : float) : (x * y = y * x)%float.
Proof.
  apply Prim2SF_inj. rewrite !mul_spec. unfold SF64mul. apply SFmul_comm.
Qed.

Lemma float_add_comm (x y : float) : (x + y = y + x)%float.
Proof.
  apply Prim2SF_inj. rewrite !add_spec. unfold SF64add. apply SFadd_comm.
Qed.

(** X10. The complex product and the complex sum of the integral engine are
    commutative, bit for bit: the integrand f(γ)·γ' does not depend on the
    order of its factors, nor a sum of two contributions on their order. *)
Theorem complex_operations_commute (a b : ComplexPoint) :
  complexMultiply a b = complexMultiply b a
  /\ complexAdd a b = complexAdd b a.
Proof.
  unfold complexMultiply, complexAdd. split; f_equal.
  - by rewrite (float_mul_comm (re a) (re b)), (float_mul_comm (im a) (im b)).
  - rewrite (float_mul_comm (re a) (im b)), (float_mul_comm (im a) (re b)).
    apply float_add_comm.
  - apply float_add_comm.
  - apply float_add_comm.
Qed.

(** ** How much is asked of math.js *)

Lemma forLoop_log_growth {L St} (body : nat -> St -> js (list L) St) (c : nat) :
  (forall k s l, length (body k s l).2 <= length l + c) ->
  forall count from s l,
    length (forLoop count from body s l).2 <= length l + count * c.
Proof.
  intros Hbody count. induction count as [|count IH]; intros from s l; simpl.
  - js_unfold. simpl. lia.
  - js_unfold. specialize (Hbody from s l).
    destruct (body from s l) as [[s'|] l1]; simpl in *; [|lia].
    specialize (IH (S from) s' l1). lia.
Qed.

Lemma length_concat_le {A B} (f : A -> list B) (ks : list A) (c : nat) :
  (forall k, length (f k) <= c) ->
  length (concat (f <$> ks)) <= length ks * c.
Proof.
  intros Hf. induction ks as [|k ks IH]; [done|].
  rewrite fmap_cons. simpl. rewrite length_app. specialize (Hf k). lia.
Qed.

Section EvaluationCounts.

Context {EvalFunction : Type}.
Variable compile : text -> option EvalFunction.
Variable evaluate : EvalFunction -> gmap string JSValue -> option JSValue.
Variable atan2_approx : float -> float -> float.

Lemma integralStep_log (gamma f : EvalFunction) (tMin dt h : float)
  (step : nat) (st : IntegralState) (l : list (@Call EvalFunction)) :
  length (integralStep evaluate gamma f tMin dt h step st l).2 <= length l + 5.
Proof.
  unfold integralStep, forwardDifference. js_unfold.
  repeat (first
    [ rewrite evalGamma_run
    | rewrite evalF_run
    | match goal with
      | H : valueIn evaluate ?c ?s = _ |- context [valueIn evaluate ?c ?s] =>
          rewrite H
      | H : isFinite ?x = _ |- context [isFinite ?x] => rewrite H
      | |- context [valueIn evaluate ?c ?s] =>
          destruct (valueIn evaluate c s) as [?|] eqn:?
      | |- context [isFinite ?x] => destruct (isFinite x) eqn:?
      end ]; simpl).
  all: rewrite ?length_app; simpl; lia.
Qed.

Lemma length_contourCalls (gamma : EvalFunction) (f : option EvalFunction)
  (t : float) :
  length (contourCalls evaluate gamma f t) <= 2
  /\ (f = None -> length (contourCalls evaluate gamma f t) = 1).
Proof.
  unfold contourCalls. split.
  - destruct f; [|simpl; lia]. destruct (valueIn _ _ _); simpl; lia.
  - by intros ->.
Qed.

(** X11. The evaluations asked of math.js are bounded by the sample count,
    whatever the expressions: at most 2·tSteps for a contour, and at most
    tSteps when its transform is blank; at most 5·tSteps for the integral (the
    curve at t, t+h, t−h, once more at t+h for the fallback, and the
    integrand); at most resolution² for each grid. *)
Theorem evaluation_counts (l : list (@Call EvalFunction)) :
  (forall expression transformFunction tMin tMax tSteps,
     let l' := (evaluateSingleContour compile evaluate expression
                  transformFunction tMin tMax tSteps l).2 in
     length l' <= length l + 2 * tSteps
     /\ (blank transformFunction = true -> length l' <= length l + tSteps))
  /\ (forall contour,
        length (computeContourIntegral compile evaluate contour l).2
        <= length l + 5 * ContourEntry.tSteps contour)
  /\ (forall config,
        length (generateDomainColoringData compile evaluate atan2_approx
                  config l).2
        <= length l + DomainColoringConfig.resolution config
                      * DomainColoringConfig.resolution config)
  /\ (forall config,
        length (generateSurface3DData compile evaluate atan2_approx config l).2
        <= length l + Surface3DConfig.resolution config
                      * Surface3DConfig.resolution config).
Proof.
  split; [|split; [|split]].
  - intros expression transformFunction tMin tMax tSteps l'. subst l'.
    destruct (blank expression) eqn:Hb.
    { unfold evaluateSingleContour. rewrite blank_spec, Hb. simpl.
      split; intros; lia. }
    destruct (compile expression) as [gamma|] eqn:Hc; cycle 1.
    { unfold evaluateSingleContour. rewrite blank_spec, Hb. js_unfold.
      rewrite Hc. simpl. split; intros; lia. }
    destruct (transformOf compile transformFunction) as [f|] eqn:Hf.
    + rewrite (evaluateSingleContour_run compile evaluate expression
                 transformFunction tMin tMax tSteps gamma f l Hb Hc Hf).
      simpl. rewrite length_app. split.
      * pose proof (length_concat_le
          (fun step => contourCalls evaluate gamma f
                         (sampleAt tMin (spacing tMin tMax tSteps) step))
          (seq 0 tSteps) 2) as Hlen.
        rewrite length_seq in Hlen.
        specialize (Hlen (fun k => proj1 (length_contourCalls gamma f _))).
        lia.
      * intros Hbt. unfold transformOf in Hf. rewrite Hbt in Hf.
        injection Hf as <-.
        pose proof (length_concat_le
          (fun step => contourCalls evaluate gamma None
                         (sampleAt tMin (spacing tMin tMax tSteps) step))
          (seq 0 tSteps) 1) as Hlen.
        rewrite length_seq in Hlen.
        specialize (Hlen (fun k => reflexivity _)). lia.
    + unfold evaluateSingleContour. rewrite blank_spec, Hb, hasTransform_spec.
      js_unfold. rewrite Hc. unfold transformOf in Hf.
      destruct (blank transformFunction); [done|]. simpl.
      destruct (compile transformFunction); [done|]. simpl.
      split; intros; lia.
  - intros contour. unfold computeContourIntegral.
    destruct (_ || _); [simpl; lia|]. js_unfold.
    destruct (compile (ContourEntry.expression contour)) as [gamma|];
      [|simpl; lia].
    destruct (compile _) as [f|]; [|simpl; lia].
    cbv beta iota zeta.
    match goal with
    | |- context [forLoop ?n 0 ?body ?s l] =>
        pose proof (forLoop_log_growth body 5
                      (integralStep_log gamma f _ _ _) n 0 s l) as Hloop;
        destruct (forLoop n 0 body s l) as [[st|] l1]
    end; simpl in *; [|lia].
    destruct (length (tValues st) =? 0)%nat; simpl; lia.
  - intros config.
    destruct (blank (DomainColoringConfig.expression config)) eqn:Hb.
    { unfold generateDomainColoringData. rewrite blank_spec, Hb. simpl. lia. }
    destruct (compile (DomainColoringConfig.expression config)) as [f|] eqn:Hc.
    + rewrite (generateDomainColoringData_run compile evaluate atan2_approx
                 config f l Hb Hc). simpl.
      rewrite length_app, length_gridCalls. lia.
    + unfold generateDomainColoringData. rewrite blank_spec, Hb. js_unfold.
      rewrite Hc. simpl. lia.
  - intros config.
    destruct (blank (Surface3DConfig.expression config)) eqn:Hb.
    { unfold generateSurface3DData. rewrite blank_spec, Hb. simpl. lia. }
    destruct (compile (Surface3DConfig.expression config)) as [f|] eqn:Hc.
    + rewrite (generateSurface3DData_run compile evaluate atan2_approx
                 config f l Hb Hc). simpl.
      rewrite length_app, length_gridCalls. lia.
    + unfold generateSurface3DData. rewrite blank_spec, Hb. js_unfold.
      rewrite Hc. simpl. lia.
Qed.

End EvaluationCounts.

(** ** What reaches the plot *)

Section PlotData.

Context {EvalFunction : Type}.
Variable compile : text -> option EvalFunction.
Variable evaluate : EvalFunction -> gmap string JSValue -> option JSValue.
Variable atan2_approx : float -> float -> float.

Lemma contourPointsOf_finite (expression transformFunction : text)
  (tMin tMax : float) (tSteps : nat) :
  Forall (fun p => finite p = true)
    (contourPointsOf compile evaluate expression transformFunction
       tMin tMax tSteps)
  /\ length (contourPointsOf compile evaluate expression transformFunction
               tMin tMax tSteps) <= tSteps.
Proof.
  unfold contourPointsOf.
  destruct (blank expression); [split; [done|simpl; lia]|].
  destruct (compile expression) as [gamma|]; [|split; [done|simpl; lia]].
  destruct (transformOf compile transformFunction) as [f|];
    [|split; [done|simpl; lia]].
  split.
  - apply Forall_forall. intros p (step & _ & Hp)%list_elem_of_omap.
    unfold contourSample in Hp.
    destruct (valueIn evaluate gamma _) as [g|]; simpl in Hp; [|done].
    destruct f as [f|]; simpl in Hp.
    + destruct (valueIn evaluate f _) as [q|]; simpl in Hp; [|done].
      destruct (finite q) eqn:Hq; [|done]. by injection Hp as <-.
    + destruct (finite g) eqn:Hq; [|done]. by injection Hp as <-.
  - etrans; [apply length_omap_le|]. by rewrite length_seq.
Qed.

(** X12. No contour hands NaN or an infinity to the plot: for every input
    the sampler ends normally with finite points only, at most tSteps of
    them, and so does every entry of a list of contours. *)
Theorem contour_points_finite (l : list (@Call EvalFunction)) :
  (forall expression transformFunction tMin tMax tSteps,
     exists points l',
       evaluateSingleContour compile evaluate expression transformFunction
         tMin tMax tSteps l = (Normal points, l')
       /\ Forall (fun p => isFinite (re p) = true /\ isFinite (im p) = true)
            points
       /\ length points <= tSteps)
  /\ (forall contours,
        exists data l',
          generateContourPoints compile evaluate contours l = (Normal data, l')
          /\ Forall (fun d =>
               Forall (fun p => isFinite (re p) = true /\ isFinite (im p) = true)
                 (ContourData.points d)) data).
Proof.
  assert (Hfin : forall pts : list ComplexPoint,
            Forall (fun p => finite p = true) pts ->
            Forall (fun p => isFinite (re p) = true /\ isFinite (im p) = true)
              pts).
  { intros pts Hall. eapply Forall_impl; [exact Hall|]. intros p.
    unfold finite. by rewrite andb_true_iff. }
  split.
  - intros expression transformFunction tMin tMax tSteps.
    destruct (evaluateSingleContour_result compile evaluate expression
                transformFunction tMin tMax tSteps l) as [l' Hrun].
    eexists _, l'. split; [exact Hrun|].
    split; [apply Hfin|]; apply contourPointsOf_finite.
  - intros contours.
    destruct (generateContourPoints_run compile evaluate contours l)
      as [l' Hrun].
    eexists _, l'. split; [exact Hrun|].
    apply Forall_fmap, Forall_forall. intros c _. simpl.
    apply Hfin, contourPointsOf_finite.
Qed.

(** X13. The flat view and the surface agree: for one expression, region
    and resolution, the heights of the surface under a projection are the
    grid of domain coloring under the same projection, cell for cell, on
    every input. *)
Theorem surface_matches_domain (dc : DomainColoringConfig.t)
  (sc : Surface3DConfig.t) (l : list (@Call EvalFunction)) :
  Surface3DConfig.expression sc = DomainColoringConfig.expression dc ->
  Surface3DConfig.xMin sc = DomainColoringConfig.xMin dc ->
  Surface3DConfig.xMax sc = DomainColoringConfig.xMax dc ->
  Surface3DConfig.yMin sc = DomainColoringConfig.yMin dc ->
  Surface3DConfig.yMax sc = DomainColoringConfig.yMax dc ->
  Surface3DConfig.resolution sc = DomainColoringConfig.resolution dc ->
  Surface3DConfig.heightBy sc = DomainColoringConfig.colorBy dc ->
  exists d s l1 l2,
    generateDomainColoringData compile evaluate atan2_approx dc l = (Normal d, l1)
    /\ generateSurface3DData compile evaluate atan2_approx sc l = (Normal s, l2)
    /\ Surface3DData.z s = DomainColoringData.z d
    /\ l2 = l1.
Proof.
  intros He Hx0 Hx1 Hy0 Hy1 Hn Hp.
  destruct (blank (DomainColoringConfig.expression dc)) eqn:Hb.
  { eexists _, _, _, _.
    split; [unfold generateDomainColoringData; by rewrite blank_spec, Hb|].
    split; [unfold generateSurface3DData; by rewrite He, blank_spec, Hb|].
    done. }
  destruct (compile (DomainColoringConfig.expression dc)) as [f|] eqn:Hc.
  - eexists _, _, _, _.
    split; [by apply generateDomainColoringData_run|].
    split; [apply generateSurface3DData_run with (f := f); by rewrite He|].
    simpl. by rewrite Hx0, Hx1, Hy0, Hy1, Hn, Hp.
  - eexists _, _, _, _.
    split; [unfold generateDomainColoringData;
            rewrite blank_spec, Hb; js_unfold; by rewrite Hc|].
    split; [unfold generateSurface3DData;
            rewrite He, blank_spec, Hb; js_unfold; by rewrite Hc|].
    done.
Qed.

End PlotData.

Lemma surface_matches_domain_witness :
  exists d s,
    (generateDomainColoringData compileText evaluateText quadrantAngle
       poleGrid []).1 = Normal d
    /\ (generateSurface3DData compileText evaluateText quadrantAngle
          poleSurface []).1 = Normal s
    /\ Surface3DData.z s = DomainColoringData.z d.
Proof.
  destruct (surface_matches_domain compileText evaluateText quadrantAngle
              poleGrid poleSurface [] eq_refl eq_refl eq_refl eq_refl eq_refl
              eq_refl eq_refl)
    as (d & s & l1 & l2 & Hd & Hs & Hz & _).
  exists d, s. by rewrite Hd, Hs.
Defined.

(** ** The modulus *)

Lemma float_mul_opp_opp (x : float) : (- x * - x = x * x)%float.
Proof.
  apply Prim2SF_inj. rewrite !mul_spec, !opp_spec. unfold SF64mul.
  by destruct (Prim2SF x) as [[]|[]| |[] m e].
Qed.

Lemma sqrt_not_negative (x : float) :
  is_nan (PrimFloat.sqrt x) || (0 <=? PrimFloat.sqrt x)%float = true.
Proof.
  unfold is_nan.
  rewrite FloatAxioms.leb_spec, FloatAxioms.eqb_spec, sqrt_spec.
  change (Prim2SF 0) with (S754_zero false).
  unfold SF64sqrt, SFsqrt.
  destruct (Prim2SF x) as [s|[]| |[] m e]; try done.
  destruct (SFsqrt_core_binary _ _ _ _) as [[mz ez] lz].
  unfold binary_round_aux.
  repeat match goal with
         | |- context [let '(_, _) := ?t in _] => destruct t
         end.
  repeat case_match; try done.
  all: apply orb_true_iff; by right.
Qed.

(** X14. The modulus is never negative: it is NaN or at least 0, whatever
    the components; and a value, its conjugate and its opposite have one
    modulus, bit for bit. *)
Theorem modulus_properties (p : ComplexPoint) :
  is_nan (modulus p) || (0 <=? modulus p)%float = true
  /\ modulus {| re := re p; im := (- im p)%float |} = modulus p
  /\ modulus {| re := (- re p)%float; im := (- im p)%float |} = modulus p
  /\ (forall approx, getColorValue approx p "modulus" = modulus p)
  /\ (forall approx selector,
        selector <> "modulus" -> selector <> "argument" ->
        selector <> "real" -> selector <> "imaginary" ->
        getColorValue approx p selector = modulus p).
Proof.
  split; [apply sqrt_not_negative|]. unfold modulus. simpl.
  rewrite !float_mul_opp_opp. do 3 (split; [done|]).
  intros approx selector H1 H2 H3 H4. unfold getColorValue.
  apply String.eqb_neq in H1, H2, H3, H4. by rewrite H1, H2, H3, H4.
Qed.
